(** * The documentation site's service worker (docs/service-worker.js)

    A shallow embedding of the caching proxy: the Cache Storage it
    keeps, the routing of the fetch handler, the four strategy
    executors, the size cap and the activation clean-up.  Asynchronous
    functions become computations over an explicit [World]; a rejected
    promise becomes a thrown value; a call that is not awaited is run for
    its effect only. *)

From Stdlib Require Import String Ascii List Bool Arith Lia.
Import ListNotations.

Local Open Scope string_scope.
Local Open Scope list_scope.

(* ================================================================== *)
(** * Part I: the program *)

(** ** JavaScript string and array methods used by the worker *)

(** [s.startsWith(t)]. *)
Fixpoint startsWith (s t : string) {struct t} : bool :=
  match t with
  | EmptyString => true
  | String c t' =>
      match s with
      | EmptyString => false
      | String d s' => Ascii.eqb c d && startsWith s' t'
      end
  end.

(** [s.includes(t)]: [t] starts at some position of [s]. *)
Fixpoint includes (s t : string) : bool :=
  startsWith s t ||
  match s with
  | EmptyString => false
  | String _ s' => includes s' t
  end.

(** [s.endsWith(t)]: some tail of [s] is [t]. *)
Fixpoint endsWith (s t : string) : bool :=
  String.eqb s t ||
  match s with
  | EmptyString => false
  | String _ s' => endsWith s' t
  end.

(** [s.slice(n)] on a string, for [n <= s.length]. *)
Fixpoint string_drop (n : nat) (s : string) : string :=
  match n, s with
  | S n', String _ s' => string_drop n' s'
  | _, _ => s
  end.

(** A URL string without its fragment: what comes before the first "#". *)
Fixpoint without_fragment (s : string) : string :=
  match s with
  | EmptyString => EmptyString
  | String c s' =>
      if Ascii.eqb c "#"%char then EmptyString else String c (without_fragment s')
  end.

(** The values of a header field that lists several, separated by
    commas, without the white space around them. *)
Definition is_space (c : ascii) : bool :=
  Ascii.eqb c " "%char || Ascii.eqb c "009"%char ||
  Ascii.eqb c "010"%char || Ascii.eqb c "013"%char.

Fixpoint trim_start (s : string) : string :=
  match s with
  | EmptyString => EmptyString
  | String c s' => if is_space c then trim_start s' else s
  end.

Fixpoint trim_end (s : string) : string :=
  match s with
  | EmptyString => EmptyString
  | String c s' =>
      match trim_end s' with
      | EmptyString => if is_space c then EmptyString else String c EmptyString
      | t => String c t
      end
  end.

Fixpoint split_commas (s : string) : list string :=
  match s with
  | EmptyString => [EmptyString]
  | String c s' =>
      if Ascii.eqb c ","%char then EmptyString :: split_commas s'
      else match split_commas s' with
           | [] => [String c EmptyString]
           | f :: fs => String c f :: fs
           end
  end.

Definition field_values (s : string) : list string :=
  map (fun f => trim_end (trim_start f)) (split_commas s).

(** [a.slice(b, e)] for indices [0 <= b] and [0 <= e]; an end beyond the
    array's length stops at its length. *)
Definition slice {A : Type} (b e : nat) (a : list A) : list A :=
  firstn (e - b) (skipn b a).

(** [a.some(p)]. *)
Definition some {A : Type} (p : A -> bool) (a : list A) : bool := existsb p a.

(** The value of [b && v] where [v] is an object or [undefined]: [v] when
    [b] holds, and a falsy value otherwise. *)
Definition and_then {A : Type} (b : bool) (v : option A) : option A :=
  if b then v else None.

(** The value of [v || w], both an object or [undefined]. *)
Definition or_else {A : Type} (v w : option A) : option A :=
  match v with
  | Some x => Some x
  | None => w
  end.

(* ------------------------------------------------------------------ *)
(** ** Data model: URLs, requests, responses *)

(** A parsed absolute http(s) URL, as [new URL(s)] exposes it. *)
Record URL := mkURL {
  origin : string;      (* "https://host" *)
  pathname : string;    (* "/dir/file.ext" *)
  search : string;      (* "" or "?query" *)
  hash : string         (* "" or "#fragment" *)
}.

(** [u.href], the serialisation that [req.url] holds. *)
Definition href (u : URL) : string :=
  (origin u ++ pathname u ++ search u ++ hash u)%string.

(** [u.pathname = p]. *)
Definition set_pathname (p : string) (u : URL) : URL :=
  mkURL (origin u) p (search u) (hash u).

(** A header list; [h.get(name)] is [undefined] for an absent name. *)
Definition Headers := list (string * string).

(** Header names are compared without regard to case. *)
Definition ascii_lower (c : ascii) : ascii :=
  let n := nat_of_ascii c in
  if (65 <=? n)%nat && (n <=? 90)%nat then ascii_of_nat (n + 32) else c.

Fixpoint toLowerCase (s : string) : string :=
  match s with
  | EmptyString => EmptyString
  | String c s' => String (ascii_lower c) (toLowerCase s')
  end.

Fixpoint headers_values (name : string) (h : Headers) : list string :=
  match h with
  | [] => []
  | (n, v) :: h' =>
      if (toLowerCase n =? toLowerCase name)%string
      then v :: headers_values name h'
      else headers_values name h'
  end.

Fixpoint join_values (l : list string) : string :=
  match l with
  | [] => EmptyString
  | v :: l' =>
      match l' with
      | [] => v
      | _ :: _ => (v ++ ", " ++ join_values l')%string
      end
  end.

(** [h.get(name)]: the values given under the name, joined by ", ". *)
Definition headers_get (name : string) (h : Headers) : option string :=
  match headers_values name h with
  | [] => None
  | vs => Some (join_values vs)
  end.

(** [h.get(name) === value]. *)
Definition header_is (name value : string) (h : Headers) : bool :=
  match headers_get name h with
  | Some v => (v =? value)%string
  | None => false
  end.

(** The fields of a [Request] the worker reads.  [url] is the request's
    URL in parsed form, [new URL(req.url)]; the string [req.url] is
    [req_url]. *)
Record Request := mkRequest {
  url : URL;
  method : string;
  mode : string;
  destination : string;
  headers : Headers
}.

Definition req_url (req : Request) : string := href (url req).

(** A response.  [resp_headers] lists the headers that the server sent
    or that the constructor was given; a content type that the
    constructor derives from the body is not listed. *)
Record Response := mkResponse {
  body : string;
  status : nat;
  statusText : string;
  resp_headers : Headers
}.

(** [res.ok]: a status in 200..299. *)
Definition ok (res : Response) : bool :=
  (200 <=? status res)%nat && (status res <=? 299)%nat.

(** [res.clone()]. *)
Definition clone (res : Response) : Response := res.

(** The response has a Vary header one of whose values is "*". *)
Definition vary_star (res : Response) : bool :=
  match headers_get "Vary" (resp_headers res) with
  | Some v => existsb (fun f => (f =? "*")%string) (field_values v)
  | None => false
  end.

(** A response that the Cache API takes: not a partial one (206), no
    "Vary: *". *)
Definition storable (res : Response) : bool :=
  negb (status res =? 206)%nat && negb (vary_star res).

(** What [cache.put(req, res)] takes: a GET request and a storable
    response; for anything else it rejects. *)
Definition cacheable (req : Request) (res : Response) : bool :=
  (method req =? "GET")%string && storable res.

(** The key of a request in a cache: its URL without the fragment. *)
Definition request_key (req : Request) : string := without_fragment (req_url req).

(* ------------------------------------------------------------------ *)
(** ** Cache Storage

    A cache is a list of entries in insertion order, keyed by the URL
    of the request without its fragment, which is how the Cache API
    compares requests; a put replaces the entry of its key and the new
    entry comes last.  The storage lists the named caches in creation
    order.  Request headers take no part in a match: the responses
    considered name no request header in a Vary field. *)

Definition Cache := list (string * Response).
Definition CacheStorage := list (string * Cache).

Definition entry_keys (c : Cache) : list string := map fst c.

Fixpoint entry_match (key : string) (c : Cache) : option Response :=
  match c with
  | [] => None
  | (k, res) :: c' => if (k =? key)%string then Some res else entry_match key c'
  end.

Definition entry_delete (key : string) (c : Cache) : Cache :=
  filter (fun e => negb (fst e =? key)%string) c.

Definition entry_put (key : string) (res : Response) (c : Cache) : Cache :=
  entry_delete key c ++ [(key, res)].

Fixpoint storage_lookup (name : string) (cs : CacheStorage) : option Cache :=
  match cs with
  | [] => None
  | (n, c) :: cs' => if (n =? name)%string then Some c else storage_lookup name cs'
  end.

Definition storage_has (name : string) (cs : CacheStorage) : bool :=
  match storage_lookup name cs with
  | Some _ => true
  | None => false
  end.

(** Apply [f] to the cache called [name]. *)
Definition storage_update (name : string) (f : Cache -> Cache)
    (cs : CacheStorage) : CacheStorage :=
  map (fun nc => if (fst nc =? name)%string then (fst nc, f (snd nc)) else nc) cs.

(** The first entry for [key] over the caches in creation order. *)
Fixpoint storage_match (key : string) (cs : CacheStorage) : option Response :=
  match cs with
  | [] => None
  | (_, c) :: cs' => or_else (entry_match key c) (storage_match key cs')
  end.

(** What a cache, and the storage, answer to a request: only a GET
    request matches, by its URL without the fragment. *)
Definition entry_match_request (req : Request) (c : Cache) : option Response :=
  if (method req =? "GET")%string then entry_match (request_key req) c else None.

Definition request_match (req : Request) (cs : CacheStorage) : option Response :=
  if (method req =? "GET")%string then storage_match (request_key req) cs else None.

(* ------------------------------------------------------------------ *)
(** ** The world the worker runs in *)

(** What the network does with a request: it settles after [latency]
    milliseconds, with a response or ([None]) with a failure. *)
Record NetOutcome := mkNetOutcome {
  latency : nat;
  reply : option Response
}.

Record World := mkWorld {
  location : URL;                    (* self.location, the worker script *)
  onLine : bool;                     (* navigator.onLine *)
  network : Request -> NetOutcome;
  caches : CacheStorage;
  fetched : list Request             (* the calls of fetch(), oldest first *)
}.

Definition set_caches (cs : CacheStorage) (w : World) : World :=
  mkWorld (location w) (onLine w) (network w) cs (fetched w).

Definition log_fetch (req : Request) (w : World) : World :=
  mkWorld (location w) (onLine w) (network w) (caches w) (fetched w ++ [req]).

(** The directory part of a path: everything up to its last "/". *)
Fixpoint dirname (p : string) : string :=
  match p with
  | EmptyString => EmptyString
  | String c p' =>
      if includes p' "/" then String c (dirname p')
      else if Ascii.eqb c "/"%char then "/" else ""
  end.

(** A URL given to the Cache API as a string is resolved against the
    worker's location; the worker only writes absolute URLs and
    relative ones of the form "./path". *)
Definition resolve (base : URL) (u : string) : string :=
  if startsWith u "./"
  then (origin base ++ dirname (pathname base) ++ string_drop 2 u)%string
  else u.

(* ------------------------------------------------------------------ *)
(** ** Asynchronous computations

    An [async] function is a function of the world that settles with a
    value or a thrown error and leaves a new world. *)

Inductive Settled (A : Type) : Type :=
| Fulfilled (a : A)
| Rejected (err : string).
Arguments Fulfilled {A} a.
Arguments Rejected {A} err.

Definition Async (A : Type) : Type := World -> Settled A * World.

Definition ret {A : Type} (a : A) : Async A := fun w => (Fulfilled a, w).

Definition throw {A : Type} (err : string) : Async A := fun w => (Rejected err, w).

(** [const x = await m; k]. *)
Definition bind {A B : Type} (m : Async A) (k : A -> Async B) : Async B :=
  fun w =>
    match m w with
    | (Fulfilled a, w') => k a w'
    | (Rejected err, w') => (Rejected err, w')
    end.

(** [try { m } catch (err) { h }], and [p.catch(h)]. *)
Definition try_catch {A : Type} (m : Async A) (h : string -> Async A) : Async A :=
  fun w =>
    match m w with
    | (Fulfilled a, w') => (Fulfilled a, w')
    | (Rejected err, w') => h err w'
    end.

(** A call whose promise is dropped: it runs, and neither its value nor
    its failure reaches the caller. *)
Definition detached {A : Type} (m : Async A) : Async unit :=
  fun w => (Fulfilled tt, snd (m w)).

(** [Promise.all(ps)]: every promise runs to its end; the result is the
    list of values, or the first rejection. *)
Fixpoint Promise_all {A : Type} (ps : list (Async A)) : Async (list A) :=
  fun w =>
    match ps with
    | [] => (Fulfilled [], w)
    | p :: ps' =>
        let (r, w1) := p w in
        let (rs, w2) := Promise_all ps' w1 in
        (match r, rs with
         | Fulfilled a, Fulfilled l => Fulfilled (a :: l)
         | Rejected err, _ => Rejected err
         | Fulfilled _, Rejected err => Rejected err
         end, w2)
    end.

Declare Scope async_scope.
Delimit Scope async_scope with async.
Notation "x <- m ;; k" := (bind m (fun x => k))
  (at level 61, m at next level, right associativity) : async_scope.
Notation "m ;; k" := (bind m (fun _ => k))
  (at level 61, right associativity) : async_scope.
Local Open Scope async_scope.

(** The state the computation leaves, and the value it settles with. *)
Definition exec {A : Type} (m : Async A) (w : World) : World := snd (m w).
Definition eval {A : Type} (m : Async A) (w : World) : Settled A := fst (m w).

(* ------------------------------------------------------------------ *)
(** ** Browser interfaces *)

(** [fetch(req)]. *)
Definition fetch (req : Request) : Async Response :=
  fun w =>
    match reply (network w req) with
    | Some res => (Fulfilled res, log_fetch req w)
    | None => (Rejected "TypeError: Failed to fetch", log_fetch req w)
    end.

(** [Promise.race([fetch(req), timeoutPromise])] where [timeoutPromise]
    rejects after [ms] milliseconds: the fetch is issued, and its result
    counts when it settles no later than the timer, which is started
    after it. *)
Definition fetch_race_timeout (req : Request) (ms : nat) : Async Response :=
  fun w =>
    if (latency (network w req) <=? ms)%nat
    then fetch req w
    else (Rejected "Network timeout", log_fetch req w).

Definition navigator_onLine : Async bool := fun w => (Fulfilled (onLine w), w).

(** [caches.open(name)] makes the cache when it is missing; the handle
    it gives is the cache's name. *)
Definition caches_open (name : string) : Async string :=
  fun w =>
    if storage_has name (caches w)
    then (Fulfilled name, w)
    else (Fulfilled name, set_caches (caches w ++ [(name, [])]) w).

Definition caches_keys : Async (list string) :=
  fun w => (Fulfilled (map fst (caches w)), w).

Definition caches_delete (name : string) : Async bool :=
  fun w =>
    (Fulfilled (storage_has name (caches w)),
     set_caches (filter (fun nc => negb (fst nc =? name)%string) (caches w)) w).

(** [caches.match(u)] for an absolute URL given as a string: the match
    of a GET request for it. *)
Definition caches_match (u : string) : Async (option Response) :=
  fun w => (Fulfilled (storage_match (without_fragment u) (caches w)), w).

(** [caches.match(req)] for a request. *)
Definition caches_match_request (req : Request) : Async (option Response) :=
  fun w => (Fulfilled (request_match req (caches w)), w).

(** [caches.match(u)] for a URL written relative to the worker. *)
Definition caches_match_url (u : string) : Async (option Response) :=
  fun w => caches_match (resolve (location w) u) w.

(** [cache.match(req)]. *)
Definition cache_match (cache : string) (req : Request) : Async (option Response) :=
  fun w =>
    (Fulfilled (match storage_lookup cache (caches w) with
                | Some c => entry_match_request req c
                | None => None
                end), w).

(** The write of an entry, once the Cache API has accepted it. *)
Definition cache_store (cache : string) (key : string) (res : Response) : Async unit :=
  fun w => (Fulfilled tt, set_caches (storage_update cache (entry_put key res) (caches w)) w).

(** [cache.put(req, res)]: rejects what is not [cacheable]. *)
Definition cache_put (cache : string) (req : Request) (res : Response) : Async unit :=
  if cacheable req res
  then cache_store cache (request_key req) res
  else throw "TypeError: Failed to execute 'put' on 'Cache'".

Definition cache_keys (cache : string) : Async (list string) :=
  fun w =>
    (Fulfilled (match storage_lookup cache (caches w) with
                | Some c => entry_keys c
                | None => []
                end), w).

(** [cache.delete(key)] for a key that [cache.keys()] gave. *)
Definition cache_delete (cache : string) (key : string) : Async bool :=
  fun w =>
    (Fulfilled (match storage_lookup cache (caches w) with
                | Some c => existsb (fun k => (k =? key)%string) (entry_keys c)
                | None => false
                end),
     set_caches (storage_update cache (entry_delete key) (caches w)) w).

(* ------------------------------------------------------------------ *)
(** ** The worker *)

Definition CACHE_VERSION : string := "v1.0.7".
Definition STATIC_CACHE : string := ("static-" ++ CACHE_VERSION)%string.
Definition RUNTIME_CACHE : string := ("runtime-" ++ CACHE_VERSION)%string.

Definition MAX_RUNTIME_ITEMS : nat := 50.
Definition MAX_STATIC_ITEMS : nat := 100.

Definition OFFLINE_URL : string := "./pwa/offline.html".

(** [limitCacheSize(cacheName, maxItems)]. *)
Definition limitCacheSize (cacheName : string) (maxItems : nat) : Async unit :=
  cache <- caches_open cacheName ;;
  keys <- cache_keys cache ;;
  if (maxItems <? length keys)%nat then
    let keysToDelete := slice 0 (length keys - maxItems) keys in
    Promise_all (map (fun key => cache_delete cache key) keysToDelete) ;;
    ret tt
  else ret tt.

(** The [activate] listener: the promise given to [event.waitUntil]. *)
Definition onActivate : Async unit :=
  keys <- caches_keys ;;
  Promise_all
    (map (fun k => caches_delete k)
       (filter (fun k => negb (k =? STATIC_CACHE)%string &&
                         negb (k =? RUNTIME_CACHE)%string) keys)) ;;
  ret tt.

(** [isStaticAsset(req)]. *)
Definition staticExtensions : list string :=
  [".css"; ".js"; ".woff"; ".woff2"; ".ttf"; ".eot";
   ".png"; ".jpg"; ".jpeg"; ".gif"; ".svg"; ".ico"; ".webp"].

Definition isStaticAsset (req : Request) : bool :=
  let url := req_url req in
  some (fun ext => includes url ext) staticExtensions.

(** [normalizeNavigationUrl(url)], on the parsed URL. *)
Definition normalizeNavigationUrl (u : URL) : string :=
  let urlObj :=
    if endsWith (pathname u) "/"
    then set_pathname (pathname u ++ "index.html")%string u
    else u in
  href urlObj.

(** [handleNavigation(req)]. *)
Definition handleNavigation (req : Request) : Async Response :=
  let normalizedUrl := normalizeNavigationUrl (url req) in
  byUrl <- caches_match normalizedUrl ;;
  cached <- match byUrl with
            | Some res => ret (Some res)
            | None => caches_match_request req
            end ;;
  online <- navigator_onLine ;;
  match and_then (negb online) cached with
  | Some res => ret res
  | None =>
      try_catch
        (netRes <- fetch_race_timeout req 3000 ;;
         (if ok netRes then
            cache <- caches_open RUNTIME_CACHE ;;
            cache_put cache req (clone netRes) ;;
            detached (limitCacheSize RUNTIME_CACHE MAX_RUNTIME_ITEMS)
          else ret tt) ;;
         ret netRes)
        (fun err =>
           match cached with
           | Some res => ret res
           | None =>
               offlinePage <- caches_match_url OFFLINE_URL ;;
               match offlinePage with
               | Some page => ret page
               | None =>
                   ret (mkResponse "Offline - Page not cached" 503
                          "Service Unavailable"
                          [("Content-Type", "text/plain")])
               end
           end)
  end.

(** [cacheFirst(req)]. *)
Definition cacheFirst (req : Request) : Async Response :=
  cached <- caches_match_request req ;;
  match cached with
  | Some res => ret res
  | None =>
      try_catch
        (netRes <- fetch req ;;
         (if ok netRes then
            cache <- caches_open STATIC_CACHE ;;
            cache_put cache req (clone netRes) ;;
            detached (limitCacheSize STATIC_CACHE MAX_STATIC_ITEMS)
          else ret tt) ;;
         ret netRes)
        (fun err => ret (mkResponse "Asset not found" 404 "" []))
  end.

(** [networkFirst(req)]. *)
Definition networkFirst (req : Request) : Async Response :=
  try_catch
    (netRes <- fetch req ;;
     (if ok netRes then
        cache <- caches_open RUNTIME_CACHE ;;
        cache_put cache req (clone netRes) ;;
        detached (limitCacheSize RUNTIME_CACHE MAX_RUNTIME_ITEMS)
      else ret tt) ;;
     ret netRes)
    (fun err =>
       cached <- caches_match_request req ;;
       match cached with
       | Some res => ret res
       | None =>
           ret (mkResponse "{}" 200 "" [("Content-Type", "application/json")])
       end).

(** [staleWhileRevalidate(req)].  The function returns
    [cached || fetchPromise]; the value it settles with is the cached
    response, or else whatever [fetchPromise] settles with, which is
    [undefined] ([None]) when the fetch fails and nothing was cached.
    The revalidation runs in either case. *)
Definition staleWhileRevalidate (req : Request) : Async (option Response) :=
  cache <- caches_open RUNTIME_CACHE ;;
  cached <- cache_match cache req ;;
  fetchPromise <-
    try_catch
      (res <- fetch req ;;
       (if ok res then
          cache_put cache req (clone res) ;;
          detached (limitCacheSize RUNTIME_CACHE MAX_RUNTIME_ITEMS)
        else ret tt) ;;
       ret (Some res))
      (fun _ => ret cached) ;;
  ret (or_else cached fetchPromise).

(** The branch the [fetch] listener takes. *)
Inductive Route : Type :=
| PassThrough            (* returns without event.respondWith *)
| Bypass                 (* event.respondWith(fetch(req)) *)
| StaleWhileRevalidate
| Navigation
| CacheFirst
| NetworkFirst.

(** The tests on origin, print, theming and site_libs directories and
    navigation, in the listener's order; [None] when the listener goes
    on to the tests on the kind of file. *)
Definition early_route (self_origin : string) (req : Request) : option Route :=
  let u := url req in
  if negb (origin u =? self_origin)%string then Some PassThrough
  else if includes (pathname u) "print" ||
          includes (search u) "print" ||
          (header_is "Sec-Fetch-Dest" "empty" (headers req) &&
           (mode req =? "cors")%string) then Some Bypass
  else if (mode req =? "print")%string ||
          ((destination req =? "document")%string &&
           header_is "Sec-Fetch-Dest" "document" (headers req)) then Some Bypass
  else if includes (pathname u) "/theming/" ||
          includes (pathname u) "/site_libs/" then Some StaleWhileRevalidate
  else if (mode req =? "navigate")%string then Some Navigation
  else None.

Definition route (self_origin : string) (req : Request) : Route :=
  match early_route self_origin req with
  | Some r => r
  | None =>
      if isStaticAsset req then CacheFirst
      else if endsWith (pathname (url req)) ".json" then NetworkFirst
      else StaleWhileRevalidate
  end.

(** What becomes of a fetch event: the listener returned without
    answering, so the browser handles the request as if there were no
    worker, or it called [event.respondWith(p)] and [p] settled. *)
Inductive FetchEventResult : Type :=
| NotIntercepted
| RespondWith (p : Settled (option Response)).

Definition respondWith (p : Async (option Response)) (w : World)
    : FetchEventResult * World :=
  let (r, w') := p w in (RespondWith r, w').

(** A promise of a response, seen as a promise of a value. *)
Definition response (p : Async Response) : Async (option Response) :=
  res <- p ;; ret (Some res).

(** The [fetch] listener. *)
Definition onFetch (req : Request) (w : World) : FetchEventResult * World :=
  match route (origin (location w)) req with
  | PassThrough => (NotIntercepted, w)
  | Bypass => respondWith (response (fetch req)) w
  | StaleWhileRevalidate => respondWith (staleWhileRevalidate req) w
  | Navigation => respondWith (response (handleNavigation req)) w
  | CacheFirst => respondWith (response (cacheFirst req)) w
  | NetworkFirst => respondWith (response (networkFirst req)) w
  end.

(* ------------------------------------------------------------------ *)
(** ** Vocabulary of the statements *)

(** The key under which the copy of a page is to be found first: the
    URL of the "index.html" of the directory when the path ends in "/",
    the URL of the page otherwise, in both cases without the fragment. *)
Definition page_key (u : URL) : string :=
  without_fragment
    (if endsWith (pathname u) "/"
     then origin u ++ pathname u ++ "index.html" ++ search u ++ hash u
     else origin u ++ pathname u ++ search u ++ hash u)%string.

(** The cached copy of the page of a navigation: the first match, over
    all the caches, of the page's key, or else of the request itself. *)
Definition cached_copy (req : Request) (w : World) : option Response :=
  or_else (storage_match (page_key (url req)) (caches w))
          (request_match req (caches w)).

(** The offline fallback document, when it is cached. *)
Definition offline_document (w : World) : option Response :=
  storage_match (without_fragment (resolve (location w) OFFLINE_URL)) (caches w).

(** The fetch of [req] is rejected. *)
Definition network_fails (w : World) (req : Request) : Prop :=
  reply (network w req) = None.

(** The fetch of [req] settles after the timeout of a navigation. *)
Definition network_times_out (w : World) (req : Request) : Prop :=
  3000 < latency (network w req).

(** [n] identical requests in a row: the worlds they leave. *)
Fixpoint repeated {A : Type} (n : nat) (m : Async A) (w : World) : World :=
  match n with
  | O => w
  | S n' => repeated n' m (exec m w)
  end.

(** Deleting a list of keys from a cache, one by one. *)
Definition entry_delete_all (ks : list string) (c : Cache) : Cache :=
  fold_left (fun c' k => entry_delete k c') ks c.

(** The caches that the [activate] listener keeps. *)
Definition current_store (name : string) : bool :=
  (name =? STATIC_CACHE)%string || (name =? RUNTIME_CACHE)%string.

(** The entry of the runtime cache for a request, when there is one. *)
Definition runtime_entry (req : Request) (w : World) : option Response :=
  match storage_lookup RUNTIME_CACHE (caches w) with
  | Some c => entry_match_request req c
  | None => None
  end.

(** The Sec-Fetch-Dest header that the browser puts on the request when
    it sends it: "empty" for a request without destination, and the
    destination otherwise. *)
Definition sec_fetch_dest (req : Request) : string :=
  if (destination req =? "")%string then "empty" else destination req.

(** A request as the browser hands it to the worker: its mode is one of
    the five request modes, and the fetch-metadata headers, which the
    browser adds after the worker has had the request, are not among
    [req.headers]. *)
Definition request_modes : list string :=
  ["same-origin"; "no-cors"; "cors"; "navigate"; "websocket"].

Definition delivered (req : Request) : Prop :=
  headers_get "Sec-Fetch-Dest" (headers req) = None /\
  In (mode req) request_modes.

(** Every cache of the storage has distinct keys. *)
Definition storage_wf (cs : CacheStorage) : Prop :=
  Forall (fun nc => NoDup (entry_keys (snd nc))) cs.

Definition keys_distinct (w : World) : Prop := storage_wf (caches w).

(** A computation keeps a property of the world. *)
Definition preserves {A : Type} (P : World -> Prop) (m : Async A) : Prop :=
  forall w, P w -> P (snd (m w)).

(** Sample data for the examples. *)
Module Sample.

Definition site : string := "https://example.org".

Definition worker : URL := mkURL site "/notes/service-worker.js" "" "".

Definition request (path : string) (m dest : string) (h : Headers) : Request :=
  mkRequest (mkURL site path "" "") "GET" m dest h.

(** The same page, with an anchor. *)
Definition anchored (path anchor : string) (m dest : string) : Request :=
  mkRequest (mkURL site path "" anchor) "GET" m dest [].

Definition page (text : string) : Response := mkResponse text 200 "OK" [].

Definition net_down : Request -> NetOutcome := fun _ => mkNetOutcome 20 None.

Definition net_up : Request -> NetOutcome :=
  fun req => mkNetOutcome 20 (Some (page (req_url req))).

Definition net_slow : Request -> NetOutcome :=
  fun req => mkNetOutcome 4000 (Some (page (req_url req))).

(** The network during an install: the icons cannot be fetched, the
    manifest comes as a partial response, the rest is answered. *)
Definition net_install : Request -> NetOutcome :=
  fun req =>
    if includes (req_url req) "icon" then mkNetOutcome 20 None
    else if includes (req_url req) "manifest"
    then mkNetOutcome 20 (Some (mkResponse "part" 206 "Partial Content" []))
    else mkNetOutcome 20 (Some (page "ok")).

(** Every answer is a partial response. *)
Definition net_partial : Request -> NetOutcome :=
  fun _ => mkNetOutcome 20 (Some (mkResponse "part" 206 "Partial Content" [])).

Definition world (online : bool) (net : Request -> NetOutcome)
    (cs : CacheStorage) : World :=
  mkWorld worker online net cs [].

Definition search_json : Request := request "/data/search.json" "cors" "" [].

Definition libs_json : Request := request "/site_libs/index/data.json" "cors" "" [].

Definition quarto_js : Request :=
  request "/site_libs/quarto-html/quarto.js" "no-cors" "script" [].

Definition app_css : Request := request "/app.css" "no-cors" "style" [].

Definition chapter : Request := request "/chapter/" "navigate" "document" [].

Definition notes_nocors : Request := request "/data/notes.txt" "no-cors" "" [].

Definition notes_cors : Request := request "/data/notes.txt" "cors" "" [].

Definition print_page : Request :=
  request "/chapter/print.html" "navigate" "document" [].

Definition foreign : Request :=
  mkRequest (mkURL "https://cdn.example.net" "/lib.js" "" "") "GET" "no-cors"
    "script" [].

Definition theme_css : Request := request "/theme.css" "no-cors" "style" [].

(** A static cache at its cap: "/app.css", the oldest entry, and 99
    images after it. *)
Fixpoint strokes (n : nat) : string :=
  match n with
  | O => EmptyString
  | S n' => String "i" (strokes n')
  end.

Definition image (n : nat) : string * Response :=
  (site ++ "/img/" ++ strokes n ++ ".png", page "image")%string.

Definition full_static : Cache :=
  ("https://example.org/app.css", page "css") :: map image (seq 1 99).

End Sample.

(* ------------------------------------------------------------------ *)
(** ** The rest of the worker: installation and warm-up messages *)

(** [Promise.allSettled(ps)]: every promise runs to its end and the
    result, never a rejection, lists how each one settled. *)
Fixpoint Promise_allSettled {A : Type} (ps : list (Async A))
    : Async (list (Settled A)) :=
  fun w =>
    match ps with
    | [] => (Fulfilled [], w)
    | p :: ps' =>
        let (r, w1) := p w in
        match Promise_allSettled ps' w1 with
        | (Fulfilled rs, w2) => (Fulfilled (r :: rs), w2)
        | (Rejected err, w2) => (Rejected err, w2)
        end
    end.

(** The manifest of the install step; the filter drops empty entries. *)
Definition PRECACHE : list string :=
  filter (fun url => negb (url =? "")%string)
    ["./";
     "./index.html";
     "./pwa/offline.html";
     "./site_libs/quarto-html/quarto.js";
     "./site_libs/bootstrap/bootstrap.min.js";
     "./pwa/manifest.webmanifest";
     "./pwa/icons/icon-192.png";
     "./pwa/icons/icon-512.png"].

(** The URL that a string of the form "./path" (no query, no fragment)
    denotes for the worker. *)
Definition resolve_URL (base : URL) (u : string) : URL :=
  mkURL (origin base) (dirname (pathname base) ++ string_drop 2 u)%string "" "".

(** [new Request(u)]: a GET request in cors mode, without destination. *)
Definition new_Request (u : URL) : Request := mkRequest u "GET" "cors" "" [].

(** The fetch that [cache.add] and [cache.addAll] make: a response that
    is not ok, or that the Cache API does not take (206, "Vary: *"),
    counts as a failure. *)
Definition fetch_ok (u : URL) : Async Response :=
  res <- fetch (new_Request u) ;;
  if ok res && storable res then ret res else throw "TypeError: Request failed".

(** [cache.add(u)]: the response fetched is written under the URL
    without its fragment. *)
Definition cache_add (cache : string) (u : URL) : Async unit :=
  res <- fetch_ok u ;;
  cache_store cache (without_fragment (href u)) res.

(** [console.warn(...)]. *)
Definition console_warn : Async unit := ret tt.

(** One entry of the manifest: [cache.add(url).catch(err => ...)]. *)
Definition precache_one (cache : string) (url : string) : Async unit :=
  try_catch
    (fun w => cache_add cache (resolve_URL (location w) url) w)
    (fun err => console_warn).

(** The [install] listener: the promise given to [event.waitUntil]. *)
Definition onInstall : Async (list (Settled unit)) :=
  cache <- caches_open STATIC_CACHE ;;
  Promise_allSettled (map (fun url => precache_one cache url) PRECACHE).

(** No string occurs twice. *)
Fixpoint distinct (l : list string) : bool :=
  match l with
  | [] => true
  | k :: l' => negb (existsb (String.eqb k) l') && distinct l'
  end.

Fixpoint put_all (cache : string) (entries : list (string * Response))
    : Async unit :=
  match entries with
  | [] => ret tt
  | (key, res) :: entries' => cache_store cache key res ;; put_all cache entries'
  end.

(** The key of a URL in a cache. *)
Definition url_key (u : URL) : string := without_fragment (href u).

(** [cache.addAll(urls)]: all the URLs are fetched; when one fetch
    fails, or gives a response that is not ok or not storable, nothing
    is stored; nor is anything when two of the requests are the same,
    fragments apart. *)
Definition cache_addAll (cache : string) (urls : list URL) : Async unit :=
  responses <- Promise_all (map fetch_ok urls) ;;
  if distinct (map url_key urls)
  then put_all cache (combine (map url_key urls) responses)
  else throw "InvalidStateError".

(** The data of a message to the worker, its URLs already parsed. *)
Record MessageData := mkMessageData {
  type : string;
  urls : list URL
}.

(** The [message] listener: the promise given to [event.waitUntil], if
    any. *)
Definition onMessage (data : MessageData) : Async unit :=
  if (type data =? "CACHE_URLS")%string then
    cache <- caches_open RUNTIME_CACHE ;;
    cache_addAll cache (urls data)
  else ret tt.

(* ------------------------------------------------------------------ *)
(** ** The plot theme (plot-theme.js): choice of the mode *)

(** What [currentMode] reads of the page: the [data-theme] attribute of
    the root element and the answer of the media query
    "(prefers-color-scheme: dark)", each possibly missing. *)
Record ThemeEnv := mkThemeEnv {
  dataset_theme : option string;
  prefers_dark : option bool
}.

(** [currentMode(mode)], with "auto" for a missing argument. *)
Definition currentMode (mode : option string) (env : ThemeEnv) : string :=
  let mode := match mode with Some m => m | None => "auto" end in
  if negb (mode =? "auto")%string then mode
  else
    let attr := dataset_theme env in
    if match attr with Some a => (a =? "dark")%string | None => false end
    then "dark"
    else if match attr with Some a => (a =? "light")%string | None => false end
    then "light"
    else match prefers_dark env with
         | Some true => "dark"
         | _ => "light"
         end.

(** The own keys of [brand]. *)
Definition brand_keys : list string := ["light"; "dark"].

(* ------------------------------------------------------------------ *)
(** ** Vocabulary of the further statements *)

(** No cached answer changes between two storages. *)
Definition same_matches (cs cs' : CacheStorage) : Prop :=
  forall key, storage_match key cs' = storage_match key cs.

(** The static cache holds at most [MAX_STATIC_ITEMS] entries and the
    runtime cache at most [MAX_RUNTIME_ITEMS]. *)
Definition cap_of (name : string) : option nat :=
  if (name =? RUNTIME_CACHE)%string then Some MAX_RUNTIME_ITEMS
  else if (name =? STATIC_CACHE)%string then Some MAX_STATIC_ITEMS
  else None.

Definition within_caps (w : World) : Prop :=
  forall name c cap,
    storage_lookup name (caches w) = Some c ->
    cap_of name = Some cap ->
    length c <= cap.

(** The network answers [req] with [res], an ok response. *)
Definition network_answers_ok (w : World) (req : Request) (res : Response) : Prop :=
  reply (network w req) = Some res /\ ok res = true.

(** The key under which the install step stores a URL of the manifest,
    and the response it stores: the answer of the network when it is an
    ok response that the Cache API takes. *)
Definition precache_key (w : World) (url : string) : string :=
  without_fragment (href (resolve_URL (location w) url)).

(** The worker's location is a parsed URL: "#" occurs neither in its
    origin nor in its path. *)
Definition parsed_location (w : World) : Prop :=
  without_fragment (origin (location w)) = origin (location w) /\
  without_fragment (pathname (location w)) = pathname (location w).

Definition precache_answer (w : World) (url : string) : option Response :=
  match reply (network w (new_Request (resolve_URL (location w) url))) with
  | Some res => if ok res && storable res then Some res else None
  | None => None
  end.

(** The puts that the install step makes for a list of URLs. *)
Fixpoint precache_puts (w : World) (l : list string) (c : Cache) : Cache :=
  match l with
  | [] => c
  | url :: l' =>
      precache_puts w l'
        (match precache_answer w url with
         | Some res => entry_put (precache_key w url) res c
         | None => c
         end)
  end.

(** The entry of the cache called [name] for a key, when there is one. *)
Definition cache_entry (name key : string) (w : World) : option Response :=
  match storage_lookup name (caches w) with
  | Some c => entry_match key c
  | None => None
  end.

(** The response that [cache.addAll] gets for a URL: the answer of the
    network when it is an ok response that the Cache API takes. *)
Definition url_answer (w : World) (u : URL) : option Response :=
  match reply (network w (new_Request u)) with
  | Some res => if ok res && storable res then Some res else None
  | None => None
  end.

(** A list of puts into one cache, in order. *)
Definition entry_put_all (entries : list (string * Response)) (c : Cache) : Cache :=
  fold_left (fun c' e => entry_put (fst e) (snd e) c') entries c.

(** What [limitCacheSize] leaves of a cache: the entries whose key is not
    among the first [length c - cap] keys. *)
Definition trim_entries (cap : nat) (c : Cache) : Cache :=
  entry_delete_all (firstn (length c - cap) (entry_keys c)) c.

(** The storage once [caches.open(name)] has run. *)
Definition storage_opened (name : string) (cs : CacheStorage) : CacheStorage :=
  if storage_has name cs then cs else cs ++ [(name, [])].

(** The same world with the client on line or off line. *)
Definition set_onLine (b : bool) (w : World) : World :=
  mkWorld (location w) b (network w) (caches w) (fetched w).

(** The last character of a string. *)
Fixpoint last_char (s : string) : option ascii :=
  match s with
  | EmptyString => None
  | String c s' => match s' with
                   | EmptyString => Some c
                   | String _ _ => last_char s'
                   end
  end.

(* ================================================================== *)
(** * Part II: properties *)

(** ** Strings *)

Lemma append_assoc (a b c : string) :
  ((a ++ b) ++ c)%string = (a ++ (b ++ c))%string.
Proof. induction a as [|x a IH]; simpl; [reflexivity | now rewrite IH]. Qed.

Lemma startsWith_spec (s t : string) :
  startsWith s t = true <-> exists b, s = (t ++ b)%string.
Proof.
  revert s; induction t as [|c t IH]; intros s; simpl.
  - split; [intros _; now exists s | reflexivity].
  - destruct s as [|d s].
    + split; [discriminate | intros [b Hb]; discriminate].
    + rewrite andb_true_iff, Ascii.eqb_eq, IH. split.
      * intros [-> [b ->]]. now exists b.
      * intros [b Hb]. injection Hb as -> ->. split; [reflexivity | now exists b].
Qed.

Lemma includes_unfold (s t : string) :
  includes s t =
  startsWith s t || match s with
                    | EmptyString => false
                    | String _ s' => includes s' t
                    end.
Proof. destruct s; reflexivity. Qed.

(** [s.includes(t)] holds exactly when [t] occurs somewhere in [s]. *)
Lemma includes_spec (s t : string) :
  includes s t = true <-> exists a b, s = (a ++ t ++ b)%string.
Proof.
  induction s as [|d s IH]; rewrite includes_unfold.
  - rewrite orb_false_r, startsWith_spec. split.
    + intros [b Hb]. now exists "", b.
    + intros [a [b Hb]]. destruct a; [now exists b | discriminate].
  - rewrite orb_true_iff, IH, startsWith_spec. split.
    + intros [[b Hb] | [a [b Hb]]].
      * now exists "", b.
      * exists (String d a), b. simpl. now rewrite Hb.
    + intros [a [b Hb]]. destruct a as [|x a]; simpl in Hb.
      * left. now exists b.
      * right. injection Hb as _ Hb. now exists a, b.
Qed.

(** [s.endsWith(t)] holds exactly when [s] is something followed by [t]. *)
Lemma endsWith_spec (s t : string) :
  endsWith s t = true <-> exists a, s = (a ++ t)%string.
Proof.
  induction s as [|d s IH]; simpl.
  - rewrite orb_false_r. split.
    + intros H. exists "". simpl.
      destruct t; [reflexivity | discriminate].
    + intros [a Ha]. destruct a; simpl in Ha; [now subst | discriminate].
  - rewrite orb_true_iff, IH. split.
    + intros [H | [a Ha]].
      * exists "". simpl. symmetry.
        change ((String d s =? t)%string = true) in H.
        now apply String.eqb_eq in H.
      * exists (String d a). simpl. now rewrite Ha.
    + intros [a Ha]. destruct a as [|x a]; simpl in Ha.
      * left. subst t. apply (String.eqb_refl (String d s)).
      * right. injection Ha as _ Ha. now exists a.
Qed.

(** ** Routing *)

Lemma isStaticAsset_spec (req : Request) :
  isStaticAsset req = true <->
  exists ext, In ext staticExtensions /\
              exists a b, req_url req = (a ++ ext ++ b)%string.
Proof.
  unfold isStaticAsset, some. rewrite existsb_exists.
  split; intros [ext [Hin H]]; exists ext; split; trivial;
    now apply includes_spec.
Qed.

(** A path ending in ".json" makes a URL that contains ".js". *)
Lemma json_is_static (req : Request) :
  endsWith (pathname (url req)) ".json" = true -> isStaticAsset req = true.
Proof.
  intros H. apply endsWith_spec in H. destruct H as [a Ha].
  apply isStaticAsset_spec. exists ".js". split.
  - simpl. tauto.
  - exists (origin (url req) ++ a)%string,
           ("on" ++ search (url req) ++ hash (url req))%string.
    unfold req_url, href. rewrite Ha, !append_assoc. reflexivity.
Qed.

Lemma early_route_cases (o : string) (req : Request) (r : Route) :
  early_route o req = Some r ->
  r = PassThrough \/ r = Bypass \/ r = StaleWhileRevalidate \/ r = Navigation.
Proof.
  unfold early_route.
  repeat match goal with
         | |- context [if ?b then _ else _] => destruct b
         end; intros H; inversion H; tauto.
Qed.

(** No request at all is routed to [networkFirst]. *)
Lemma route_never_NetworkFirst (o : string) (req : Request) :
  route o req <> NetworkFirst.
Proof.
  unfold route. destruct (early_route o req) as [r|] eqn:E.
  - apply early_route_cases in E. intros ->.
    destruct E as [E|[E|[E|E]]]; discriminate.
  - destruct (isStaticAsset req) eqn:S; [discriminate|].
    destruct (endsWith (pathname (url req)) ".json") eqn:J; [|discriminate].
    apply json_is_static in J. congruence.
Qed.

Lemma route_same_origin_early (o : string) (req : Request) :
  early_route o req = None -> origin (url req) = o.
Proof.
  unfold early_route.
  destruct (origin (url req) =? o)%string eqn:E; simpl; [|discriminate].
  intros _. now apply String.eqb_eq.
Qed.

(** ** The executors, one step at a time *)

Lemma fetch_fails (req : Request) (w : World) :
  network_fails w req ->
  fetch req w = (Rejected "TypeError: Failed to fetch", log_fetch req w).
Proof. unfold network_fails, fetch. now intros ->. Qed.

Lemma fetch_answers (req : Request) (w : World) (res : Response) :
  reply (network w req) = Some res ->
  fetch req w = (Fulfilled res, log_fetch req w).
Proof. unfold fetch. now intros ->. Qed.

(** A hit: [cacheFirst] answers from the caches and touches nothing. *)
Lemma cacheFirst_hit (req : Request) (w : World) (res : Response) :
  request_match req (caches w) = Some res ->
  cacheFirst req w = (Fulfilled res, w).
Proof.
  intros H. unfold cacheFirst, bind, caches_match_request. now rewrite H.
Qed.

(** A miss with the network down: the synthetic 404. *)
Lemma cacheFirst_miss_network_down (req : Request) (w : World) :
  request_match req (caches w) = None ->
  network_fails w req ->
  cacheFirst req w =
  (Fulfilled (mkResponse "Asset not found" 404 "" []), log_fetch req w).
Proof.
  intros H F. unfold cacheFirst, bind, caches_match_request, try_catch.
  rewrite H. now rewrite (fetch_fails _ _ F).
Qed.

(** With the network down [networkFirst] answers from the caches, or
    with the empty JSON document. *)
Lemma networkFirst_network_down (req : Request) (w : World) :
  network_fails w req ->
  networkFirst req w =
  (Fulfilled (match request_match req (caches w) with
              | Some res => res
              | None => mkResponse "{}" 200 "" [("Content-Type", "application/json")]
              end), log_fetch req w).
Proof.
  intros F. unfold networkFirst, bind, caches_match_request, try_catch.
  rewrite (fetch_fails _ _ F). simpl.
  now destruct (request_match req (caches w)).
Qed.

(** ** Claims about routing *)

(** C1 (the code departs from it): a same-origin request for a path
    ending in ".json" that reaches the tests on the kind of file, with
    the network down and no cached entry, is answered by [cacheFirst]
    with the synthetic 404 "Asset not found", where the claim promises
    the body "{}" with a JSON content type and a success status.  The
    answer promised is the one [networkFirst] would give. *)
Theorem json_request_network_down_gets_404 :
  forall (w : World) (req : Request),
    early_route (origin (location w)) req = None ->
    endsWith (pathname (url req)) ".json" = true ->
    network_fails w req ->
    request_match req (caches w) = None ->
    fst (onFetch req w) =
      RespondWith (Fulfilled (Some (mkResponse "Asset not found" 404 "" []))) /\
    ok (mkResponse "Asset not found" 404 "" []) = false /\
    eval (networkFirst req) w =
      Fulfilled (mkResponse "{}" 200 "" [("Content-Type", "application/json")]).
Proof.
  intros w req E J F M. split; [|split].
  - unfold onFetch, route. rewrite E, (json_is_static _ J).
    unfold respondWith, response, bind.
    now rewrite (cacheFirst_miss_network_down _ _ M F).
  - reflexivity.
  - unfold eval. rewrite (networkFirst_network_down _ _ F). simpl.
    now rewrite M.
Qed.

Lemma json_request_network_down_gets_404_witness :
  fst (onFetch Sample.search_json (Sample.world true Sample.net_down [])) =
    RespondWith (Fulfilled (Some (mkResponse "Asset not found" 404 "" []))) /\
  ok (mkResponse "Asset not found" 404 "" []) = false /\
  eval (networkFirst Sample.search_json) (Sample.world true Sample.net_down []) =
    Fulfilled (mkResponse "{}" 200 "" [("Content-Type", "application/json")]).
Proof.
  apply (json_request_network_down_gets_404
           (Sample.world true Sample.net_down []) Sample.search_json);
    reflexivity.
Defined.

(** C2 (counterexample): a request whose path ends in ".json" is not
    always routed to [cacheFirst]: for one under a shared-library
    directory [isStaticAsset] holds, but the earlier test on the
    directory wins and the request goes to [staleWhileRevalidate]. *)
Lemma json_under_site_libs_is_not_CacheFirst :
  origin (url Sample.libs_json) = Sample.site /\
  endsWith (pathname (url Sample.libs_json)) ".json" = true /\
  isStaticAsset Sample.libs_json = true /\
  route Sample.site Sample.libs_json = StaleWhileRevalidate /\
  route Sample.site Sample.libs_json <> CacheFirst.
Proof.
  repeat split; try reflexivity. vm_compute. discriminate.
Qed.

(** C2 (amended): [isStaticAsset] holds exactly when the request's URL
    contains one of the listed extensions anywhere; it holds for every
    URL whose path ends in ".json"; such a request never reaches the
    [networkFirst] branch, and it is routed to [cacheFirst] whenever no
    earlier test of the listener (origin, print, theming or site_libs
    directory, navigation) takes it. *)
Theorem json_requests_are_static_assets :
  (forall req : Request,
     isStaticAsset req = true <->
     exists ext, In ext staticExtensions /\
                 exists a b, req_url req = (a ++ ext ++ b)%string) /\
  (forall (o : string) (req : Request),
     endsWith (pathname (url req)) ".json" = true ->
     isStaticAsset req = true /\
     route o req <> NetworkFirst /\
     (early_route o req = None -> route o req = CacheFirst)).
Proof.
  split; [exact isStaticAsset_spec|].
  intros o req J. split; [|split].
  - now apply json_is_static.
  - apply route_never_NetworkFirst.
  - intros E. unfold route. now rewrite E, (json_is_static _ J).
Qed.

Lemma json_requests_are_static_assets_witness :
  isStaticAsset Sample.search_json = true /\
  route Sample.site Sample.search_json <> NetworkFirst /\
  route Sample.site Sample.search_json = CacheFirst.
Proof.
  destruct json_requests_are_static_assets as [_ H].
  destruct (H Sample.site Sample.search_json eq_refl) as [H1 [H2 H3]].
  split; [exact H1 | split; [exact H2 | exact (H3 eq_refl)]].
Defined.

(** C4: a request to another origin is not answered by the worker: the
    listener returns without [respondWith], it issues no fetch of its
    own and leaves every cache as it was. *)
Theorem cross_origin_not_intercepted :
  forall (w : World) (req : Request),
    origin (url req) <> origin (location w) ->
    onFetch req w = (NotIntercepted, w).
Proof.
  intros w req H. unfold onFetch, route, early_route.
  destruct (origin (url req) =? origin (location w))%string eqn:E.
  - apply String.eqb_eq in E. contradiction.
  - reflexivity.
Qed.

Lemma cross_origin_not_intercepted_witness :
  onFetch Sample.foreign (Sample.world true Sample.net_up []) =
  (NotIntercepted, Sample.world true Sample.net_up []).
Proof.
  apply cross_origin_not_intercepted. simpl. discriminate.
Defined.

(** The first test after the one on the origin. *)
Lemma early_route_print (o : string) (req : Request) :
  origin (url req) = o ->
  includes (pathname (url req)) "print" ||
  includes (search (url req)) "print" ||
  (header_is "Sec-Fetch-Dest" "empty" (headers req) &&
   (mode req =? "cors")%string) = true ->
  early_route o req = Some Bypass.
Proof.
  intros <- H. unfold early_route.
  rewrite String.eqb_refl. simpl. now rewrite H.
Qed.

(** What [event.respondWith(fetch(req))] comes to. *)
Lemma onFetch_Bypass (req : Request) (w : World) :
  route (origin (location w)) req = Bypass ->
  onFetch req w =
  (RespondWith (match reply (network w req) with
                | Some res => Fulfilled (Some res)
                | None => Rejected "TypeError: Failed to fetch"
                end), log_fetch req w).
Proof.
  intros R. unfold onFetch. rewrite R.
  unfold respondWith, response, bind, fetch.
  now destruct (reply (network w req)).
Qed.

Lemma header_is_absent (name value : string) (h : Headers) :
  headers_get name h = None -> header_is name value h = false.
Proof. unfold header_is. now intros ->. Qed.

(** C10 (counterexample): a same-origin no-cors fetch without
    destination, which the browser sends with the header
    Sec-Fetch-Dest: empty, is not bypassed: the worker does not see that
    header on the request; the request takes the default branch,
    [staleWhileRevalidate], and when the network answers the response is
    written to the runtime cache. *)
Lemma no_cors_empty_is_not_bypassed :
  origin (url Sample.notes_nocors) = Sample.site /\
  mode Sample.notes_nocors = "no-cors" /\
  sec_fetch_dest Sample.notes_nocors = "empty" /\
  delivered Sample.notes_nocors /\
  route Sample.site Sample.notes_nocors = StaleWhileRevalidate /\
  route Sample.site Sample.notes_nocors <> Bypass /\
  caches (snd (onFetch Sample.notes_nocors (Sample.world true Sample.net_up []))) =
  [(RUNTIME_CACHE,
    [("https://example.org/data/notes.txt",
      Sample.page "https://example.org/data/notes.txt")])].
Proof.
  split; [reflexivity|]. split; [reflexivity|]. split; [reflexivity|].
  split; [split; [reflexivity | simpl; tauto]|].
  split; [reflexivity|]. split; [vm_compute; discriminate | reflexivity].
Qed.

(** C10 (amended): a same-origin request whose path or query contains
    "print" takes the bypass branch: the listener answers with
    [fetch(req)] itself, whatever that settles with, and no cache
    changes. *)
Theorem print_requests_are_bypassed :
  forall (w : World) (req : Request),
    origin (url req) = origin (location w) ->
    includes (pathname (url req)) "print" = true \/
    includes (search (url req)) "print" = true ->
    route (origin (location w)) req = Bypass /\
    onFetch req w =
      (RespondWith (match reply (network w req) with
                    | Some res => Fulfilled (Some res)
                    | None => Rejected "TypeError: Failed to fetch"
                    end), log_fetch req w) /\
    caches (snd (onFetch req w)) = caches w.
Proof.
  intros w req O H.
  assert (R : route (origin (location w)) req = Bypass).
  { unfold route. rewrite (early_route_print _ _ O); [reflexivity|].
    destruct H as [H | H].
    - now rewrite H.
    - rewrite H. now rewrite orb_true_r. }
  split; [exact R|]. rewrite (onFetch_Bypass _ _ R). split; reflexivity.
Qed.

Lemma print_requests_are_bypassed_witness :
  route Sample.site Sample.print_page = Bypass /\
  fst (onFetch Sample.print_page
         (Sample.world true Sample.net_up
            [(RUNTIME_CACHE,
              [("https://example.org/chapter/print.html", Sample.page "old")])])) =
    RespondWith
      (Fulfilled (Some (Sample.page "https://example.org/chapter/print.html"))) /\
  caches (snd (onFetch Sample.print_page
                 (Sample.world true Sample.net_up
                    [(RUNTIME_CACHE,
                      [("https://example.org/chapter/print.html",
                        Sample.page "old")])]))) =
    [(RUNTIME_CACHE,
      [("https://example.org/chapter/print.html", Sample.page "old")])].
Proof.
  destruct (print_requests_are_bypassed
              (Sample.world true Sample.net_up
                 [(RUNTIME_CACHE,
                   [("https://example.org/chapter/print.html",
                     Sample.page "old")])])
              Sample.print_page eq_refl (or_introl eq_refl))
    as [R [E C]].
  split; [exact R|]. split; [|exact C]. now rewrite E.
Defined.

(** ** Cache Storage *)

Lemma set_caches_same (w : World) : set_caches (caches w) w = w.
Proof. now destruct w. Qed.

Lemma set_caches_twice (cs cs' : CacheStorage) (w : World) :
  set_caches cs (set_caches cs' w) = set_caches cs w.
Proof. reflexivity. Qed.

Lemma storage_update_ext (name : string) (f g : Cache -> Cache) (cs : CacheStorage) :
  (forall c, f c = g c) -> storage_update name f cs = storage_update name g cs.
Proof.
  intros H. unfold storage_update. apply map_ext. intros [n c]. simpl.
  now rewrite H.
Qed.

Lemma storage_update_id (name : string) (cs : CacheStorage) :
  storage_update name (fun c => c) cs = cs.
Proof.
  unfold storage_update. rewrite <- (map_id cs) at 2. apply map_ext.
  intros [n c]. simpl. now destruct (n =? name)%string.
Qed.

Lemma storage_update_twice (name : string) (f g : Cache -> Cache) (cs : CacheStorage) :
  storage_update name g (storage_update name f cs) =
  storage_update name (fun c => g (f c)) cs.
Proof.
  unfold storage_update. rewrite map_map. apply map_ext. intros [n c]. simpl.
  destruct (n =? name)%string eqn:E; simpl; now rewrite E.
Qed.

Lemma storage_lookup_update (name : string) (f : Cache -> Cache) (cs : CacheStorage) :
  storage_lookup name (storage_update name f cs) =
  option_map f (storage_lookup name cs).
Proof.
  induction cs as [|[n c] cs IH]; simpl; [reflexivity|].
  destruct (n =? name)%string eqn:E; simpl; rewrite E; [reflexivity | exact IH].
Qed.

Lemma storage_lookup_update_other (name other : string) (f : Cache -> Cache)
    (cs : CacheStorage) :
  other <> name ->
  storage_lookup other (storage_update name f cs) = storage_lookup other cs.
Proof.
  intros H. induction cs as [|[n c] cs IH]; simpl; [reflexivity|].
  destruct (n =? name)%string eqn:E; simpl.
  - apply String.eqb_eq in E. subst n.
    destruct (name =? other)%string eqn:E'; [|exact IH].
    apply String.eqb_eq in E'. congruence.
  - destruct (n =? other)%string; [reflexivity | exact IH].
Qed.

Lemma filter_twice {A : Type} (f g : A -> bool) (l : list A) :
  filter f (filter g l) = filter (fun x => g x && f x) l.
Proof.
  induction l as [|x l IH]; simpl; [reflexivity|].
  destruct (g x); simpl; [destruct (f x)|]; now rewrite IH.
Qed.

(** Deleting keys one by one keeps the entries whose key is not listed. *)
Lemma entry_delete_all_filter (ks : list string) (c : Cache) :
  entry_delete_all ks c =
  filter (fun e => negb (existsb (String.eqb (fst e)) ks)) c.
Proof.
  revert c. induction ks as [|k ks IH]; intros c.
  - simpl. symmetry. apply filter_true.
  - change (entry_delete_all (k :: ks) c)
      with (entry_delete_all ks (entry_delete k c)).
    rewrite IH. unfold entry_delete. rewrite filter_twice.
    apply filter_ext. intros e. simpl. now rewrite negb_orb.
Qed.

(** In a cache without repeated keys, deleting the first [n] keys
    leaves the entries after the first [n]. *)
Lemma entry_delete_oldest (n : nat) (c : Cache) :
  NoDup (entry_keys c) ->
  entry_delete_all (firstn n (entry_keys c)) c = skipn n c.
Proof.
  rewrite entry_delete_all_filter. revert n.
  induction c as [|[k r] c IH]; intros n ND.
  - now destruct n.
  - destruct n as [|n]; [apply filter_true|].
    simpl in ND. apply NoDup_cons_iff in ND. destruct ND as [Hk ND].
    simpl. rewrite String.eqb_refl. simpl.
    rewrite <- (IH n ND). apply filter_ext_in.
    intros [k' r'] Hin. simpl.
    destruct (k' =? k)%string eqn:E; [|reflexivity].
    apply String.eqb_eq in E. subst k'. exfalso. apply Hk.
    unfold entry_keys. change k with (fst (k, r')). now apply in_map.
Qed.

(** [put] keeps the keys of a cache distinct. *)
Lemma entry_delete_keys (key : string) (c : Cache) :
  entry_keys (entry_delete key c) =
  filter (fun k => negb (k =? key)%string) (entry_keys c).
Proof.
  unfold entry_keys, entry_delete.
  induction c as [|[k r] c IH]; simpl; [reflexivity|].
  destruct (k =? key)%string; simpl; now rewrite IH.
Qed.

Lemma entry_put_NoDup (key : string) (res : Response) (c : Cache) :
  NoDup (entry_keys c) -> NoDup (entry_keys (entry_put key res c)).
Proof.
  intros ND. unfold entry_put, entry_keys. rewrite map_app.
  fold (entry_keys (entry_delete key c)). rewrite entry_delete_keys.
  apply NoDup_app.
  - now apply NoDup_filter.
  - simpl. constructor; [intros [] | constructor].
  - intros k Hin [<- | []]. apply filter_In in Hin. destruct Hin as [_ H].
    now rewrite String.eqb_refl in H.
Qed.

(** ** Running promises *)

Lemma exec_bind_ret {A : Type} (m : Async A) (w : World) :
  exec (m ;; ret tt) w = exec m w.
Proof. unfold exec, bind, ret. now destruct (m w) as [[a|e] w']. Qed.

Lemma exec_Promise_all_cons {A : Type} (p : Async A) (ps : list (Async A)) (w : World) :
  exec (Promise_all (p :: ps)) w = exec (Promise_all ps) (exec p w).
Proof.
  unfold exec. simpl. destruct (p w) as [r w1]. simpl.
  now destruct (Promise_all ps w1) as [rs w2].
Qed.

Lemma exec_delete_keys (cache : string) (ks : list string) (w : World) :
  exec (Promise_all (map (fun key => cache_delete cache key) ks)) w =
  set_caches (storage_update cache (entry_delete_all ks) (caches w)) w.
Proof.
  revert w. induction ks as [|k ks IH]; intros w.
  - unfold exec. simpl.
    rewrite (storage_update_ext cache _ (fun c => c)); [|reflexivity].
    now rewrite storage_update_id, set_caches_same.
  - simpl map. rewrite exec_Promise_all_cons, IH.
    unfold exec, cache_delete. simpl.
    rewrite storage_update_twice. reflexivity.
Qed.

Lemma exec_delete_stores (ks : list string) (w : World) :
  exec (Promise_all (map (fun k => caches_delete k) ks)) w =
  set_caches
    (filter (fun nc => negb (existsb (String.eqb (fst nc)) ks)) (caches w)) w.
Proof.
  revert w. induction ks as [|k ks IH]; intros w.
  - unfold exec. simpl. now rewrite filter_true, set_caches_same.
  - simpl map. rewrite exec_Promise_all_cons, IH.
    unfold exec, caches_delete. simpl.
    rewrite filter_twice, set_caches_twice.
    f_equal. apply filter_ext. intros nc. now rewrite negb_orb.
Qed.

Lemma exec_bind_fulfilled {A B : Type} (m : Async A) (k : A -> Async B)
    (w w' : World) (a : A) :
  m w = (Fulfilled a, w') -> exec (x <- m ;; k x) w = exec (k a) w'.
Proof. intros H. unfold exec, bind. now rewrite H. Qed.

Lemma storage_has_lookup (name : string) (cs : CacheStorage) (c : Cache) :
  storage_lookup name cs = Some c -> storage_has name cs = true.
Proof. unfold storage_has. now intros ->. Qed.

(** ** Trim-to-cap *)

(** What [limitCacheSize] does to a cache that exists. *)
Lemma limitCacheSize_exec (name : string) (maxItems : nat) (w : World) (c : Cache) :
  storage_lookup name (caches w) = Some c ->
  exec (limitCacheSize name maxItems) w =
  if (maxItems <? length c)%nat
  then set_caches
         (storage_update name
            (entry_delete_all (firstn (length c - maxItems) (entry_keys c)))
            (caches w)) w
  else w.
Proof.
  intros L. unfold limitCacheSize.
  rewrite (exec_bind_fulfilled _ _ w w name).
  2:{ unfold caches_open. now rewrite (storage_has_lookup _ _ _ L). }
  rewrite (exec_bind_fulfilled _ _ w w (entry_keys c)).
  2:{ unfold cache_keys. now rewrite L. }
  unfold entry_keys at 1 2. rewrite length_map.
  destruct (maxItems <? length c)%nat; [|reflexivity].
  rewrite exec_bind_ret, exec_delete_keys.
  unfold slice. simpl skipn. now rewrite Nat.sub_0_r.
Qed.

Lemma NoDup_app_disjoint {A : Type} (l1 l2 : list A) (a : A) :
  NoDup (l1 ++ l2) -> In a l1 -> ~ In a l2.
Proof.
  induction l1 as [|x l1 IH]; simpl; intros ND H1 H2; [contradiction|].
  apply NoDup_cons_iff in ND. destruct ND as [Hx ND].
  destruct H1 as [-> | H1].
  - apply Hx, in_or_app. now right.
  - exact (IH ND H1 H2).
Qed.

(** C3: for a cache of [N] entries in insertion order (distinct keys,
    as [put] keeps them) and a cap [C], [limitCacheSize] leaves, when
    [N > C], exactly the [C] entries inserted last: the keys it deletes
    are the [N - C] inserted first; when [N <= C] it changes nothing.
    The other caches are never touched. *)
Theorem limitCacheSize_keeps_newest :
  forall (w : World) (name : string) (C : nat) (c : Cache),
    storage_lookup name (caches w) = Some c ->
    NoDup (entry_keys c) ->
    (C < length c ->
       storage_lookup name (caches (exec (limitCacheSize name C) w)) =
         Some (skipn (length c - C) c) /\
       length (skipn (length c - C) c) = C /\
       c = firstn (length c - C) c ++ skipn (length c - C) c /\
       (forall k, In k (entry_keys c) ->
          (~ In k (entry_keys (skipn (length c - C) c)) <->
           In k (firstn (length c - C) (entry_keys c))))) /\
    (length c <= C -> exec (limitCacheSize name C) w = w) /\
    (forall other, other <> name ->
       storage_lookup other (caches (exec (limitCacheSize name C) w)) =
       storage_lookup other (caches w)).
Proof.
  intros w name C c L ND. rewrite (limitCacheSize_exec _ _ _ _ L).
  split; [|split].
  - intros Hlt. apply Nat.ltb_lt in Hlt as Hb. rewrite Hb. simpl.
    rewrite storage_lookup_update, L. simpl.
    rewrite (entry_delete_oldest _ _ ND).
    split; [reflexivity|]. split; [rewrite length_skipn; lia|].
    split; [symmetry; apply firstn_skipn|].
    intros k Hk. unfold entry_keys in *. rewrite <- skipn_map.
    rewrite <- (firstn_skipn (length c - C) (map fst c)) in ND, Hk.
    split.
    + intros Hn. apply in_app_or in Hk. tauto.
    + intros H1 H2. exact (NoDup_app_disjoint _ _ _ ND H1 H2).
  - intros Hle. apply Nat.ltb_ge in Hle. now rewrite Hle.
  - intros other Ho. destruct (C <? length c)%nat; [|reflexivity].
    simpl. now apply storage_lookup_update_other.
Qed.

Lemma limitCacheSize_keeps_newest_witness :
  storage_lookup "runtime"
    (caches (exec (limitCacheSize "runtime" 2)
               (Sample.world true Sample.net_up
                  [("runtime", [("/a", Sample.page "a"); ("/b", Sample.page "b");
                                ("/c", Sample.page "c"); ("/d", Sample.page "d")])]))) =
  Some [("/c", Sample.page "c"); ("/d", Sample.page "d")].
Proof.
  refine (proj1 (proj1 (limitCacheSize_keeps_newest
            (Sample.world true Sample.net_up
               [("runtime", [("/a", Sample.page "a"); ("/b", Sample.page "b");
                             ("/c", Sample.page "c"); ("/d", Sample.page "d")])])
            "runtime" 2 _ eq_refl _) _)).
  - simpl. repeat constructor; simpl; intuition discriminate.
  - simpl. lia.
Defined.

(** ** Activation *)

Lemma existsb_eqb_filter (p : string -> bool) (n : string) (l : list string) :
  In n l -> existsb (String.eqb n) (filter p l) = p n.
Proof.
  intros H. destruct (p n) eqn:P.
  - apply existsb_exists. exists n. split.
    + apply filter_In. now split.
    + apply String.eqb_refl.
  - destruct (existsb (String.eqb n) (filter p l)) eqn:E; [|reflexivity].
    apply existsb_exists in E. destruct E as [x [Hx Ex]].
    apply String.eqb_eq in Ex. subst x. apply filter_In in Hx.
    destruct Hx as [_ Hx]. congruence.
Qed.

Lemma onActivate_exec (w : World) :
  exec onActivate w =
  set_caches (filter (fun nc => current_store (fst nc)) (caches w)) w.
Proof.
  unfold onActivate.
  rewrite (exec_bind_fulfilled _ _ w w (map fst (caches w))); [|reflexivity].
  rewrite exec_bind_ret, exec_delete_stores. f_equal.
  apply filter_ext_in. intros nc Hin.
  rewrite existsb_eqb_filter; [|now apply in_map].
  unfold current_store. rewrite negb_andb, !negb_involutive. reflexivity.
Qed.

Lemma storage_lookup_filter (q : string -> bool) (name : string) (cs : CacheStorage) :
  storage_lookup name (filter (fun nc => q (fst nc)) cs) =
  if q name then storage_lookup name cs else None.
Proof.
  induction cs as [|[n c] cs IH]; simpl.
  - now destruct (q name).
  - destruct (n =? name)%string eqn:E.
    + apply String.eqb_eq in E. subst n. destruct (q name) eqn:Q; simpl.
      * now rewrite String.eqb_refl.
      * exact IH.
    + destruct (q n); simpl; [rewrite E|]; exact IH.
Qed.

Lemma storage_names_filter (q : string -> bool) (name : string) (cs : CacheStorage) :
  In name (map fst (filter (fun nc => q (fst nc)) cs)) <->
  In name (map fst cs) /\ q name = true.
Proof.
  rewrite !in_map_iff. split.
  - intros [nc [<- H]]. apply filter_In in H. destruct H as [H Q].
    split; [now exists nc | exact Q].
  - intros [[nc [<- H]] Q]. exists nc. split; [reflexivity|].
    apply filter_In. now split.
Qed.

Lemma current_store_spec (name : string) :
  current_store name = true <-> name = STATIC_CACHE \/ name = RUNTIME_CACHE.
Proof.
  unfold current_store. now rewrite orb_true_iff, !String.eqb_eq.
Qed.

Lemma old_version_not_current (v : string) :
  v <> CACHE_VERSION ->
  current_store ("static-" ++ v) = false /\
  current_store ("runtime-" ++ v) = false.
Proof.
  intros H. split.
  - destruct (current_store ("static-" ++ v)) eqn:E; [|reflexivity].
    apply current_store_spec in E. destruct E as [E | E].
    + unfold STATIC_CACHE in E. simpl in E. injection E as E. contradiction.
    + discriminate E.
  - destruct (current_store ("runtime-" ++ v)) eqn:E; [|reflexivity].
    apply current_store_spec in E. destruct E as [E | E].
    + discriminate E.
    + unfold RUNTIME_CACHE in E. simpl in E. injection E as E. contradiction.
Qed.

(** C7: after the activation sequence the named caches are those that
    were there under the current static or runtime name; a cache is
    deleted exactly when its name differs from both; the two current
    caches keep their content; and the caches of any other version
    ("static-v", "runtime-v" for a [v] that is not the current version)
    are gone. *)
Theorem activation_deletes_other_versions :
  forall w : World,
    (forall name,
       In name (map fst (caches (exec onActivate w))) <->
       In name (map fst (caches w)) /\
       (name = STATIC_CACHE \/ name = RUNTIME_CACHE)) /\
    (forall name,
       In name (map fst (caches w)) ->
       (~ In name (map fst (caches (exec onActivate w))) <->
        name <> STATIC_CACHE /\ name <> RUNTIME_CACHE)) /\
    (forall name,
       name = STATIC_CACHE \/ name = RUNTIME_CACHE ->
       storage_lookup name (caches (exec onActivate w)) =
       storage_lookup name (caches w)) /\
    (forall v,
       v <> CACHE_VERSION ->
       storage_lookup ("static-" ++ v) (caches (exec onActivate w)) = None /\
       storage_lookup ("runtime-" ++ v) (caches (exec onActivate w)) = None).
Proof.
  intros w. rewrite onActivate_exec. simpl caches.
  split; [|split; [|split]].
  - intros name. now rewrite storage_names_filter, current_store_spec.
  - intros name Hin. rewrite storage_names_filter, current_store_spec. tauto.
  - intros name H. apply current_store_spec in H.
    now rewrite storage_lookup_filter, H.
  - intros v Hv. destruct (old_version_not_current v Hv) as [H1 H2].
    now rewrite !storage_lookup_filter, H1, H2.
Qed.

Lemma activation_deletes_other_versions_witness :
  storage_lookup "static-v1.0.6"
    (caches (exec onActivate
               (Sample.world true Sample.net_up
                  [("static-v1.0.6", [("/a", Sample.page "a")]);
                   ("static-v1.0.7", [("/b", Sample.page "b")])]))) = None /\
  storage_lookup "static-v1.0.7"
    (caches (exec onActivate
               (Sample.world true Sample.net_up
                  [("static-v1.0.6", [("/a", Sample.page "a")]);
                   ("static-v1.0.7", [("/b", Sample.page "b")])]))) =
  Some [("/b", Sample.page "b")].
Proof.
  destruct (activation_deletes_other_versions
              (Sample.world true Sample.net_up
                 [("static-v1.0.6", [("/a", Sample.page "a")]);
                  ("static-v1.0.7", [("/b", Sample.page "b")])]))
    as [_ [_ [K D]]].
  split.
  - apply (D "v1.0.6"). discriminate.
  - rewrite (K "static-v1.0.7"); [reflexivity | now left].
Defined.

(** ** Navigation *)

Lemma fetch_race_timeout_rejects (req : Request) (w : World) :
  network_fails w req \/ network_times_out w req ->
  exists err,
    fetch_race_timeout req 3000 w = (Rejected err, log_fetch req w).
Proof.
  unfold network_fails, network_times_out, fetch_race_timeout.
  intros [F | T].
  - destruct (latency (network w req) <=? 3000)%nat.
    + exists "TypeError: Failed to fetch". now apply fetch_fails.
    + now exists "Network timeout".
  - apply Nat.leb_gt in T. rewrite T. now exists "Network timeout".
Qed.

(** The key that [caches.match(normalizedUrl)] looks up is the key of
    the page. *)
Lemma normalized_key (u : URL) :
  without_fragment (normalizeNavigationUrl u) = page_key u.
Proof.
  unfold normalizeNavigationUrl, page_key, href, set_pathname.
  destruct (endsWith (pathname u) "/"); simpl; [|reflexivity].
  now rewrite append_assoc.
Qed.

(** The two look-ups at the head of [handleNavigation]. *)
Lemma handleNavigation_lookup (req : Request) (w : World) :
  (byUrl <- caches_match (normalizeNavigationUrl (url req)) ;;
   match byUrl with
   | Some res => ret (Some res)
   | None => caches_match_request req
   end) w = (Fulfilled (cached_copy req w), w).
Proof.
  unfold bind, caches_match, caches_match_request, cached_copy.
  rewrite normalized_key.
  now destruct (storage_match (page_key (url req)) (caches w)).
Qed.

Lemma bind_assoc {A B C : Type} (m : Async A) (k : A -> Async B)
    (h : B -> Async C) (w : World) :
  (y <- (x <- m ;; k x) ;; h y) w = (x <- m ;; y <- k x ;; h y) w.
Proof. unfold bind. now destruct (m w) as [[a|e] w']. Qed.

Lemma bind_fulfilled {A B : Type} (m : Async A) (k : A -> Async B)
    (w w' : World) (a : A) :
  m w = (Fulfilled a, w') -> (x <- m ;; k x) w = k a w'.
Proof. intros H. unfold bind. now rewrite H. Qed.

(** Offline with a cached copy: the copy, at once. *)
Lemma handleNavigation_offline_hit (req : Request) (w : World) (res : Response) :
  onLine w = false ->
  cached_copy req w = Some res ->
  handleNavigation req w = (Fulfilled res, w).
Proof.
  intros Off Hit. unfold handleNavigation.
  rewrite <- bind_assoc.
  rewrite (bind_fulfilled _ _ w w _ (handleNavigation_lookup req w)).
  unfold bind at 1, navigator_onLine. now rewrite Off, Hit.
Qed.

(** The network gives nothing in time: the chain of fallbacks. *)
Lemma handleNavigation_network_down (req : Request) (w : World) :
  network_fails w req \/ network_times_out w req ->
  exists w',
    caches w' = caches w /\
    handleNavigation req w =
      (Fulfilled
         (match cached_copy req w with
          | Some page => page
          | None =>
              match offline_document w with
              | Some page => page
              | None =>
                  mkResponse "Offline - Page not cached" 503 "Service Unavailable"
                    [("Content-Type", "text/plain")]
              end
          end), w').
Proof.
  intros H. destruct (fetch_race_timeout_rejects req w H) as [err R].
  unfold handleNavigation.
  rewrite <- bind_assoc.
  rewrite (bind_fulfilled _ _ w w _ (handleNavigation_lookup req w)).
  unfold bind at 1, navigator_onLine.
  destruct (cached_copy req w) as [page|] eqn:Hit.
  - destruct (onLine w); simpl.
    + exists (log_fetch req w). split; [reflexivity|].
      unfold try_catch, bind at 1. now rewrite R.
    + now exists w.
  - replace (and_then (negb (onLine w)) None) with (@None Response)
      by now destruct (onLine w).
    exists (log_fetch req w). split; [reflexivity|].
    unfold try_catch, bind at 1. rewrite R.
    unfold bind, caches_match_url, caches_match, offline_document. simpl.
    now destruct (storage_match
                    (without_fragment (resolve (location w) OFFLINE_URL))
                    (caches w)).
Qed.

(** C5: when the network fetch of a navigation fails, or takes more than
    the 3000 ms of the timeout, [handleNavigation] settles with the
    cached copy of the page if there is one (the entry, in any cache,
    for the page's URL without its fragment, with "index.html" added to
    a path ending in "/", or else for the request itself), else with
    the offline fallback document if it is cached, else with a 503 text
    response whose body is "Offline - Page not cached". *)
Theorem navigation_fallback_chain :
  forall (w : World) (req : Request),
    reply (network w req) = None \/ 3000 < latency (network w req) ->
    eval (handleNavigation req) w =
      Fulfilled
        (match cached_copy req w with
         | Some page => page
         | None =>
             match offline_document w with
             | Some page => page
             | None =>
                 mkResponse "Offline - Page not cached" 503 "Service Unavailable"
                   [("Content-Type", "text/plain")]
             end
         end).
Proof.
  intros w req H.
  destruct (handleNavigation_network_down req w H) as [w' [_ E]].
  unfold eval. now rewrite E.
Qed.

Lemma navigation_fallback_chain_witness :
  eval (handleNavigation (Sample.anchored "/chapter/" "#part-2" "navigate" "document"))
    (Sample.world true Sample.net_slow
       [(STATIC_CACHE,
         [("https://example.org/notes/pwa/offline.html", Sample.page "offline")]);
        (RUNTIME_CACHE,
         [("https://example.org/chapter/index.html", Sample.page "chapter")])]) =
  Fulfilled (Sample.page "chapter") /\
  eval (handleNavigation (Sample.anchored "/preface/" "#top" "navigate" "document"))
    (Sample.world true Sample.net_down
       [(STATIC_CACHE,
         [("https://example.org/notes/pwa/offline.html", Sample.page "offline")]);
        (RUNTIME_CACHE,
         [("https://example.org/chapter/index.html", Sample.page "chapter")])]) =
  Fulfilled (Sample.page "offline") /\
  eval (handleNavigation (Sample.anchored "/preface/" "#top" "navigate" "document"))
    (Sample.world true Sample.net_down []) =
  Fulfilled (mkResponse "Offline - Page not cached" 503 "Service Unavailable"
               [("Content-Type", "text/plain")]).
Proof.
  split; [|split].
  - apply (navigation_fallback_chain
             (Sample.world true Sample.net_slow
                [(STATIC_CACHE,
                  [("https://example.org/notes/pwa/offline.html",
                    Sample.page "offline")]);
                 (RUNTIME_CACHE,
                  [("https://example.org/chapter/index.html",
                    Sample.page "chapter")])])
             (Sample.anchored "/chapter/" "#part-2" "navigate" "document")).
    right. simpl. lia.
  - apply (navigation_fallback_chain
             (Sample.world true Sample.net_down
                [(STATIC_CACHE,
                  [("https://example.org/notes/pwa/offline.html",
                    Sample.page "offline")]);
                 (RUNTIME_CACHE,
                  [("https://example.org/chapter/index.html",
                    Sample.page "chapter")])])
             (Sample.anchored "/preface/" "#top" "navigate" "document")).
    left. reflexivity.
  - apply (navigation_fallback_chain
             (Sample.world true Sample.net_down [])
             (Sample.anchored "/preface/" "#top" "navigate" "document")).
    left. reflexivity.
Defined.

(** C6: a navigation made while the client is known to be offline, with
    a cached match under the normalized URL or under the request's own
    key (fragments do not count), settles with that match at once: no
    fetch is issued and nothing changes. *)
Theorem navigation_offline_serves_cache :
  forall (w : World) (req : Request) (res : Response),
    onLine w = false ->
    cached_copy req w = Some res ->
    handleNavigation req w = (Fulfilled res, w) /\
    fetched (exec (handleNavigation req) w) = fetched w.
Proof.
  intros w req res Off Hit.
  pose proof (handleNavigation_offline_hit req w res Off Hit) as H.
  split; [exact H|]. unfold exec. now rewrite H.
Qed.

Lemma navigation_offline_serves_cache_witness :
  eval (handleNavigation (Sample.anchored "/chapter/" "#part-2" "navigate" "document"))
    (Sample.world false Sample.net_up
       [(RUNTIME_CACHE,
         [("https://example.org/chapter/index.html", Sample.page "chapter")])]) =
  Fulfilled (Sample.page "chapter") /\
  fetched (exec (handleNavigation
                   (Sample.anchored "/chapter/" "#part-2" "navigate" "document"))
    (Sample.world false Sample.net_up
       [(RUNTIME_CACHE,
         [("https://example.org/chapter/index.html", Sample.page "chapter")])])) = [].
Proof.
  destruct (navigation_offline_serves_cache
              (Sample.world false Sample.net_up
                 [(RUNTIME_CACHE,
                   [("https://example.org/chapter/index.html",
                     Sample.page "chapter")])])
              (Sample.anchored "/chapter/" "#part-2" "navigate" "document")
              (Sample.page "chapter") eq_refl eq_refl) as [H F].
  split; [|exact F]. unfold eval. now rewrite H.
Defined.

(** ** The executors and a network that fails *)

Lemma storage_lookup_app_new (name : string) (cs : CacheStorage) :
  storage_lookup name cs = None ->
  storage_lookup name (cs ++ [(name, [])]) = Some [].
Proof.
  induction cs as [|[n c] cs IH]; simpl.
  - intros _. now rewrite String.eqb_refl.
  - destruct (n =? name)%string; [discriminate | exact IH].
Qed.

(** Opening the runtime cache and looking a request up in it. *)
Lemma open_runtime_match (req : Request) (w : World) :
  exists w',
    network w' = network w /\ fetched w' = fetched w /\
    (cache <- caches_open RUNTIME_CACHE ;; cache_match cache req) w =
    (Fulfilled (runtime_entry req w), w').
Proof.
  unfold bind, caches_open, cache_match, runtime_entry, storage_has.
  destruct (storage_lookup RUNTIME_CACHE (caches w)) as [c|] eqn:L.
  - exists w. simpl. now rewrite L.
  - exists (set_caches (caches w ++ [(RUNTIME_CACHE, [])]) w). simpl.
    rewrite (storage_lookup_app_new _ _ L).
    unfold entry_match_request. now destruct (method req =? "GET")%string.
Qed.

Lemma or_else_same {A : Type} (v : option A) : or_else v v = v.
Proof. now destruct v. Qed.

(** With the network down [staleWhileRevalidate] settles with the entry
    of the runtime cache, and with [undefined] when there is none. *)
Lemma staleWhileRevalidate_network_down (req : Request) (w : World) :
  network_fails w req ->
  exists w', staleWhileRevalidate req w = (Fulfilled (runtime_entry req w), w').
Proof.
  intros F. unfold staleWhileRevalidate.
  destruct (open_runtime_match req w) as [w1 [N [_ E]]].
  unfold bind in *.
  destruct (caches_open RUNTIME_CACHE w) as [[cache|e] w0]; [|discriminate E].
  rewrite E. unfold try_catch.
  rewrite fetch_fails by (unfold network_fails; now rewrite N).
  unfold ret. rewrite or_else_same. now exists (log_fetch req w1).
Qed.

(** The other three executors settle with a response whatever the
    network does. *)
Lemma cacheFirst_fulfils (req : Request) (w : World) :
  exists res w', cacheFirst req w = (Fulfilled res, w').
Proof.
  unfold cacheFirst, bind, try_catch, caches_match_request, fetch, ret,
    caches_open, cache_put, cache_store, throw, detached, clone.
  destruct (request_match req (caches w)); [eauto|].
  destruct (reply (network w req)) as [res|]; [|eauto].
  destruct (ok res); [|eauto].
  simpl. destruct (storage_has STATIC_CACHE (caches w));
    destruct (cacheable req res); eauto.
Qed.

Lemma networkFirst_fulfils (req : Request) (w : World) :
  exists res w', networkFirst req w = (Fulfilled res, w').
Proof.
  unfold networkFirst, bind, try_catch, caches_match_request, fetch, ret,
    caches_open, cache_put, cache_store, throw, detached, clone.
  destruct (reply (network w req)) as [res|].
  - destruct (ok res); [|eauto].
    simpl. destruct (storage_has RUNTIME_CACHE (caches w));
      destruct (cacheable req res); simpl;
      try match goal with
          | |- context [match request_match ?r ?c with _ => _ end] =>
              destruct (request_match r c)
          end; eauto.
  - simpl. destruct (request_match req (caches w)); eauto.
Qed.

Ltac settle_fulfils :=
  repeat (cbn beta iota delta [fst snd];
          match goal with
          | |- exists _ _, (Fulfilled _, _) = (Fulfilled _, _) =>
              eexists; eexists; reflexivity
          | |- context [if ?b then _ else _] => destruct b
          | |- context [match ?x with Some _ => _ | None => _ end] => destruct x
          end).

Lemma handleNavigation_fulfils (req : Request) (w : World) :
  exists res w', handleNavigation req w = (Fulfilled res, w').
Proof.
  unfold handleNavigation. rewrite <- bind_assoc.
  rewrite (bind_fulfilled _ _ w w _ (handleNavigation_lookup req w)).
  unfold bind at 1, navigator_onLine.
  destruct (and_then (negb (onLine w)) (cached_copy req w)) as [res|];
    [unfold ret; eauto|].
  unfold try_catch, fetch_race_timeout, fetch, bind, ret, caches_open,
    cache_put, cache_store, throw, detached, clone, caches_match_url,
    caches_match.
  settle_fulfils.
Qed.

(** C8 (the code departs from it): with the network down,
    [staleWhileRevalidate] settles with the stale entry of the runtime
    cache; when there is no such entry it settles with [undefined], so
    that the listener hands [respondWith] no response at all and the
    failure reaches the page.  The claim promises a response in every
    case, as the three sibling executors give. *)
Theorem staleWhileRevalidate_network_down_no_response :
  forall (w : World) (req : Request),
    network_fails w req ->
    eval (staleWhileRevalidate req) w = Fulfilled (runtime_entry req w) /\
    (runtime_entry req w = None ->
     route (origin (location w)) req = StaleWhileRevalidate ->
     fst (onFetch req w) = RespondWith (Fulfilled None)).
Proof.
  intros w req F.
  destruct (staleWhileRevalidate_network_down req w F) as [w' E].
  split.
  - unfold eval. now rewrite E.
  - intros M R. unfold onFetch. rewrite R. unfold respondWith.
    rewrite E, M. reflexivity.
Qed.

Lemma staleWhileRevalidate_network_down_no_response_witness :
  eval (staleWhileRevalidate Sample.quarto_js)
    (Sample.world true Sample.net_down []) = Fulfilled None /\
  fst (onFetch Sample.quarto_js (Sample.world true Sample.net_down [])) =
    RespondWith (Fulfilled None).
Proof.
  destruct (staleWhileRevalidate_network_down_no_response
              (Sample.world true Sample.net_down []) Sample.quarto_js eq_refl)
    as [H1 H2].
  split; [exact H1 | exact (H2 eq_refl eq_refl)].
Defined.

(** ** Cache-first *)

Lemma repeated_cacheFirst_hit (n : nat) (req : Request) (w : World) (res : Response) :
  request_match req (caches w) = Some res ->
  repeated n (cacheFirst req) w = w.
Proof.
  intros H. induction n as [|n IH]; simpl; [reflexivity|].
  unfold exec at 1. now rewrite (cacheFirst_hit _ _ _ H).
Qed.

(** C9 (counterexample): a cached static asset is not served from the
    cache until the store is cleared.  With the static cache at its cap
    and "/app.css" its oldest entry, the request for "/app.css" is
    served from the cache; then another style sheet is requested, is
    fetched and stored, and the trim evicts "/app.css"; the static cache
    still holds 100 entries, yet the next request for "/app.css" finds
    nothing and goes to the network. *)
Lemma cached_asset_is_evicted_by_a_later_write :
  route Sample.site Sample.app_css = CacheFirst /\
  length Sample.full_static = 100 /\
  onFetch Sample.app_css
    (Sample.world true Sample.net_up [(STATIC_CACHE, Sample.full_static)]) =
    (RespondWith (Fulfilled (Some (Sample.page "css"))),
     Sample.world true Sample.net_up [(STATIC_CACHE, Sample.full_static)]) /\
  option_map (@length _)
    (storage_lookup STATIC_CACHE
       (caches (snd (onFetch Sample.theme_css
          (Sample.world true Sample.net_up [(STATIC_CACHE, Sample.full_static)]))))) =
    Some 100 /\
  request_match Sample.app_css
    (caches (snd (onFetch Sample.theme_css
       (Sample.world true Sample.net_up [(STATIC_CACHE, Sample.full_static)])))) =
    None /\
  fetched (snd (onFetch Sample.app_css (snd (onFetch Sample.theme_css
     (Sample.world true Sample.net_up [(STATIC_CACHE, Sample.full_static)]))))) =
    [Sample.theme_css; Sample.app_css].
Proof.
  repeat split; vm_compute; reflexivity.
Qed.

(** C9 (amended): when the caches hold an entry for the request (a GET
    request, matched by its URL without the fragment), [cacheFirst]
    settles with it at once, issues no fetch and changes nothing; so
    does the listener for a request it routes to [cacheFirst]; hence a
    cached asset is served from the cache, without a fetch, for as long
    as its entry is in the caches, and repetitions of the request leave
    it there. *)
Theorem cacheFirst_serves_cached_without_network :
  forall (w : World) (req : Request) (res : Response),
    request_match req (caches w) = Some res ->
    cacheFirst req w = (Fulfilled res, w) /\
    (route (origin (location w)) req = CacheFirst ->
     onFetch req w = (RespondWith (Fulfilled (Some res)), w)) /\
    (forall n : nat,
       eval (cacheFirst req) (repeated n (cacheFirst req) w) = Fulfilled res /\
       fetched (repeated (S n) (cacheFirst req) w) = fetched w).
Proof.
  intros w req res H.
  pose proof (cacheFirst_hit req w res H) as E.
  split; [exact E|]. split.
  - intros R. unfold onFetch. rewrite R.
    unfold respondWith, response, bind. now rewrite E.
  - intros n.
    rewrite (repeated_cacheFirst_hit (S n) req w res H).
    rewrite (repeated_cacheFirst_hit n req w res H).
    unfold eval. now rewrite E.
Qed.

Lemma cacheFirst_serves_cached_without_network_witness :
  onFetch (Sample.anchored "/app.css" "#v2" "no-cors" "style")
    (Sample.world true Sample.net_down
       [(STATIC_CACHE, [("https://example.org/app.css", Sample.page "css")])]) =
  (RespondWith (Fulfilled (Some (Sample.page "css"))),
   Sample.world true Sample.net_down
     [(STATIC_CACHE, [("https://example.org/app.css", Sample.page "css")])]).
Proof.
  destruct (cacheFirst_serves_cached_without_network
              (Sample.world true Sample.net_down
                 [(STATIC_CACHE,
                   [("https://example.org/app.css", Sample.page "css")])])
              (Sample.anchored "/app.css" "#v2" "no-cors" "style")
              (Sample.page "css") eq_refl) as [_ [H _]].
  exact (H eq_refl).
Defined.

(** *** From a miss to a hit *)

Lemma entry_match_app (key : string) (c1 c2 : Cache) :
  entry_match key (c1 ++ c2) = or_else (entry_match key c1) (entry_match key c2).
Proof.
  induction c1 as [|[k r] c1 IH]; simpl; [reflexivity|].
  now destruct (k =? key)%string.
Qed.

Lemma entry_match_delete_same (key : string) (c : Cache) :
  entry_match key (entry_delete key c) = None.
Proof.
  unfold entry_delete. induction c as [|[k r] c IH]; simpl; [reflexivity|].
  destruct (k =? key)%string eqn:E; simpl; [exact IH | now rewrite E].
Qed.

Lemma entry_match_put_same (key : string) (res : Response) (c : Cache) :
  entry_match key (entry_put key res c) = Some res.
Proof.
  unfold entry_put. rewrite entry_match_app, entry_match_delete_same.
  simpl. now rewrite String.eqb_refl.
Qed.

Lemma entry_match_filter_keep (key : string) (p : string * Response -> bool)
    (c : Cache) :
  (forall e, fst e = key -> p e = true) ->
  entry_match key (filter p c) = entry_match key c.
Proof.
  intros H. induction c as [|[k r] c IH]; simpl; [reflexivity|].
  destruct (k =? key)%string eqn:E.
  - apply String.eqb_eq in E. rewrite (H (k, r) E). simpl.
    subst k. now rewrite String.eqb_refl.
  - destruct (p (k, r)); simpl; [rewrite E|]; exact IH.
Qed.

Lemma in_firstn {A : Type} (n : nat) (l : list A) (a : A) :
  In a (firstn n l) -> In a l.
Proof.
  revert l. induction n as [|n IH]; intros [|x l]; simpl; try tauto.
  intros [H | H]; [now left | right; now apply IH].
Qed.

(** The key just put is not among the keys that the trim deletes, for a
    cap of at least one. *)
Lemma put_key_survives_trim (key : string) (res : Response) (c : Cache) (cap : nat) :
  1 <= cap ->
  ~ In key (firstn (length (entry_put key res c) - cap)
              (entry_keys (entry_put key res c))).
Proof.
  intros Hcap Hin. unfold entry_put, entry_keys in Hin.
  rewrite length_app, map_app, firstn_app, length_map in Hin. simpl in Hin.
  replace (length (entry_delete key c) + 1 - cap - length (entry_delete key c))
    with 0 in Hin by lia.
  simpl in Hin. rewrite app_nil_r in Hin. apply in_firstn in Hin.
  fold (entry_keys (entry_delete key c)) in Hin.
  rewrite entry_delete_keys in Hin. apply filter_In in Hin.
  destruct Hin as [_ Hin]. now rewrite String.eqb_refl in Hin.
Qed.

Lemma entry_match_put_trim (key : string) (res : Response) (c : Cache) (cap : nat) :
  1 <= cap ->
  entry_match key
    (entry_delete_all
       (firstn (length (entry_put key res c) - cap)
          (entry_keys (entry_put key res c)))
       (entry_put key res c)) = Some res.
Proof.
  intros Hcap. rewrite entry_delete_all_filter.
  rewrite entry_match_filter_keep; [apply entry_match_put_same|].
  intros e <-.
  destruct (existsb (String.eqb (fst e)) _) eqn:E; [|reflexivity].
  apply existsb_exists in E. destruct E as [k [Hin Hk]].
  apply String.eqb_eq in Hk. subst k.
  exfalso. exact (put_key_survives_trim _ _ _ _ Hcap Hin).
Qed.

Lemma storage_match_app (key : string) (cs1 cs2 : CacheStorage) :
  storage_match key (cs1 ++ cs2) =
  or_else (storage_match key cs1) (storage_match key cs2).
Proof.
  induction cs1 as [|[n c] cs1 IH]; simpl; [reflexivity|].
  rewrite IH. now destruct (entry_match key c).
Qed.

(** A key that no cache holds is found after an update that puts it in
    the cache called [name]. *)
Lemma storage_match_update_hit (key name : string) (f : Cache -> Cache)
    (cs : CacheStorage) (c0 : Cache) (res : Response) :
  storage_match key cs = None ->
  storage_lookup name cs = Some c0 ->
  entry_match key (f c0) = Some res ->
  storage_match key (storage_update name f cs) = Some res.
Proof.
  intros M L F. induction cs as [|[n c] cs IH]; simpl in *; [discriminate|].
  destruct (entry_match key c) eqn:Ec; [discriminate|]. simpl in M.
  destruct (n =? name)%string; simpl.
  - injection L as ->. now rewrite F.
  - rewrite Ec. simpl. now apply IH.
Qed.

Lemma storage_lookup_has_true (name : string) (cs : CacheStorage) :
  storage_has name cs = true -> exists c, storage_lookup name cs = Some c.
Proof.
  unfold storage_has. destruct (storage_lookup name cs) as [c|]; [eauto|discriminate].
Qed.

Lemma storage_lookup_has_false (name : string) (cs : CacheStorage) :
  storage_has name cs = false -> storage_lookup name cs = None.
Proof.
  unfold storage_has. now destruct (storage_lookup name cs).
Qed.

(** The example of the specification: a static asset that is not cached
    is fetched once and stored; the same request is then served from
    the cache without a fetch. *)
Example app_css_is_cached_after_the_first_request :
  eval (cacheFirst Sample.app_css)
    (exec (cacheFirst Sample.app_css) (Sample.world true Sample.net_up [])) =
  Fulfilled (Sample.page "https://example.org/app.css") /\
  fetched (exec (cacheFirst Sample.app_css)
             (exec (cacheFirst Sample.app_css)
                (Sample.world true Sample.net_up []))) = [Sample.app_css].
Proof. split; reflexivity. Qed.

(** ** Distinct keys, an invariant of the worker

    The caches start empty and only [put] adds entries, so the keys of
    every cache stay distinct whatever the worker is asked. *)

Section Preservation.

Variable P : World -> Prop.

Lemma preserves_ret {A : Type} (a : A) : preserves P (ret a).
Proof. intros w H. exact H. Qed.

Lemma preserves_bind {A B : Type} (m : Async A) (k : A -> Async B) :
  preserves P m -> (forall a, preserves P (k a)) -> preserves P (x <- m ;; k x).
Proof.
  intros Hm Hk w H. unfold bind. specialize (Hm w H).
  destruct (m w) as [[a|e] w']; simpl in *; [now apply Hk | exact Hm].
Qed.

Lemma preserves_try_catch {A : Type} (m : Async A) (h : string -> Async A) :
  preserves P m -> (forall e, preserves P (h e)) -> preserves P (try_catch m h).
Proof.
  intros Hm Hh w H. unfold try_catch. specialize (Hm w H).
  destruct (m w) as [[a|e] w']; simpl in *; [exact Hm | now apply Hh].
Qed.

Lemma preserves_detached {A : Type} (m : Async A) :
  preserves P m -> preserves P (detached m).
Proof. intros Hm w H. exact (Hm w H). Qed.

Lemma preserves_Promise_all {A B : Type} (f : A -> Async B) (l : list A) :
  (forall a, preserves P (f a)) -> preserves P (Promise_all (map f l)).
Proof.
  intros Hf. induction l as [|a l IH]; intros w H; [exact H|].
  change (P (exec (Promise_all (f a :: map f l)) w)).
  rewrite exec_Promise_all_cons. apply IH. now apply Hf.
Qed.

End Preservation.

Lemma entry_delete_NoDup (key : string) (c : Cache) :
  NoDup (entry_keys c) -> NoDup (entry_keys (entry_delete key c)).
Proof. intros H. rewrite entry_delete_keys. now apply NoDup_filter. Qed.

Lemma storage_update_wf (name : string) (f : Cache -> Cache) (cs : CacheStorage) :
  (forall c, NoDup (entry_keys c) -> NoDup (entry_keys (f c))) ->
  storage_wf cs -> storage_wf (storage_update name f cs).
Proof.
  intros Hf H. unfold storage_wf, storage_update in *.
  apply Forall_map. revert H. apply Forall_impl. intros [n c] Hc. simpl in *.
  destruct (n =? name)%string; simpl; auto.
Qed.

Lemma storage_filter_wf (p : string * Cache -> bool) (cs : CacheStorage) :
  storage_wf cs -> storage_wf (filter p cs).
Proof.
  unfold storage_wf. rewrite !Forall_forall. intros H nc Hin.
  apply filter_In in Hin. now apply H.
Qed.

Lemma keeps_fetch (req : Request) : preserves keys_distinct (fetch req).
Proof. intros w H. unfold fetch. now destruct (reply (network w req)). Qed.

Lemma keeps_fetch_race (req : Request) (ms : nat) :
  preserves keys_distinct (fetch_race_timeout req ms).
Proof.
  intros w H. unfold fetch_race_timeout.
  destruct (latency (network w req) <=? ms)%nat; [now apply keeps_fetch | exact H].
Qed.

Lemma keeps_caches_open (name : string) : preserves keys_distinct (caches_open name).
Proof.
  intros w H. unfold caches_open.
  destruct (storage_has name (caches w)); [exact H|].
  unfold keys_distinct, storage_wf in *. simpl. apply Forall_app. split; [exact H|].
  repeat constructor.
Qed.

Lemma keeps_caches_delete (name : string) : preserves keys_distinct (caches_delete name).
Proof. intros w H. now apply storage_filter_wf. Qed.

Lemma keeps_cache_store (cache key : string) (res : Response) :
  preserves keys_distinct (cache_store cache key res).
Proof.
  intros w H. apply storage_update_wf; [|exact H].
  intros c. apply entry_put_NoDup.
Qed.

Lemma keeps_cache_put (cache : string) (req : Request) (res : Response) :
  preserves keys_distinct (cache_put cache req res).
Proof.
  unfold cache_put. destruct (cacheable req res);
    [apply keeps_cache_store | intros w H; exact H].
Qed.

Lemma keeps_cache_delete (cache key : string) :
  preserves keys_distinct (cache_delete cache key).
Proof.
  intros w H. apply storage_update_wf; [|exact H].
  intros c. apply entry_delete_NoDup.
Qed.

Lemma keeps_read {A : Type} (f : World -> A) :
  preserves keys_distinct (fun w => (Fulfilled (f w), w)).
Proof. intros w H. exact H. Qed.

Create HintDb keeps.
#[local] Hint Resolve preserves_ret preserves_bind preserves_try_catch
  preserves_detached preserves_Promise_all keeps_fetch keeps_fetch_race
  keeps_caches_open keeps_caches_delete keeps_cache_put keeps_cache_delete
  : keeps.

Ltac keeps_step :=
  match goal with
  | |- forall _, _ => intros ?
  | |- preserves _ (if ?b then _ else _) => destruct b
  | |- preserves _ (match ?x with Some _ => _ | None => _ end) => destruct x
  | |- preserves _ (bind _ _) => apply preserves_bind
  | |- preserves _ (try_catch _ _) => apply preserves_try_catch
  | |- preserves _ (detached _) => apply preserves_detached
  | |- preserves _ (Promise_all (map _ _)) => apply preserves_Promise_all
  | |- preserves _ (ret _) => apply preserves_ret
  | |- preserves _ (caches_match _) => apply keeps_read
  | |- preserves _ (caches_match_request _) => apply keeps_read
  | |- preserves _ (caches_match_url _) => apply (keeps_read (fun w => _))
  | |- preserves _ (cache_match _ _) => apply keeps_read
  | |- preserves _ (cache_keys _) => apply keeps_read
  | |- preserves _ caches_keys => apply keeps_read
  | |- preserves _ navigator_onLine => apply keeps_read
  | |- _ => solve [auto with keeps]
  end.

Lemma keeps_limitCacheSize (name : string) (maxItems : nat) :
  preserves keys_distinct (limitCacheSize name maxItems).
Proof. unfold limitCacheSize. repeat keeps_step. Qed.

Lemma keeps_onActivate : preserves keys_distinct onActivate.
Proof. unfold onActivate. repeat keeps_step. Qed.

#[local] Hint Resolve keeps_limitCacheSize : keeps.

Lemma keeps_cacheFirst (req : Request) : preserves keys_distinct (cacheFirst req).
Proof. unfold cacheFirst. repeat keeps_step. Qed.

Lemma keeps_networkFirst (req : Request) : preserves keys_distinct (networkFirst req).
Proof. unfold networkFirst. repeat keeps_step. Qed.

Lemma keeps_staleWhileRevalidate (req : Request) :
  preserves keys_distinct (staleWhileRevalidate req).
Proof. unfold staleWhileRevalidate. repeat keeps_step. Qed.

Lemma keeps_handleNavigation (req : Request) :
  preserves keys_distinct (handleNavigation req).
Proof. unfold handleNavigation. repeat keeps_step. Qed.

(** Whatever the request, the listener leaves every cache with distinct
    keys if it found them so. *)
Lemma onFetch_keeps_keys_distinct (req : Request) (w : World) :
  keys_distinct w -> keys_distinct (snd (onFetch req w)).
Proof.
  intros H. unfold onFetch.
  destruct (route (origin (location w)) req); [exact H| | | | |];
    unfold respondWith, response;
    match goal with
    | |- keys_distinct (snd (let (_, _) := ?m w in _)) =>
        assert (K : preserves keys_distinct m) by
          (repeat keeps_step;
           auto using keeps_cacheFirst, keeps_networkFirst,
             keeps_staleWhileRevalidate, keeps_handleNavigation);
        specialize (K w H); destruct (m w); exact K
    end.
Qed.

(** A cache of a world with distinct keys satisfies the hypothesis of
    the trim. *)
Lemma keys_distinct_lookup (w : World) (name : string) (c : Cache) :
  keys_distinct w -> storage_lookup name (caches w) = Some c ->
  NoDup (entry_keys c).
Proof.
  unfold keys_distinct, storage_wf. induction (caches w) as [|[n c'] cs IH].
  - discriminate.
  - intros H L. apply Forall_cons_iff in H. destruct H as [Hc H]. simpl in *.
    destruct (n =? name)%string; [now injection L as <- | now apply IH].
Qed.

(* ================================================================== *)
(** * Part III: further properties of the code *)

(** ** Normalized navigation URLs *)

Lemma last_char_app (p s : string) :
  s <> EmptyString -> last_char (p ++ s) = last_char s.
Proof.
  intros Hs. induction p as [|c p IH]; [reflexivity|].
  simpl. rewrite IH.
  destruct (p ++ s)%string eqn:E; [|reflexivity].
  destruct p; simpl in E; [contradiction | discriminate].
Qed.

Lemma endsWith_last_char (s : string) (c d : ascii) :
  endsWith s (String c EmptyString) = true -> last_char s = Some d -> c = d.
Proof.
  intros H L. apply endsWith_spec in H. destruct H as [a ->].
  rewrite last_char_app in L by discriminate. simpl in L. congruence.
Qed.

Lemma index_html_is_not_a_directory (p : string) :
  endsWith (p ++ "index.html") "/" = false.
Proof.
  destruct (endsWith (p ++ "index.html") "/") eqn:E; [|reflexivity].
  assert (L : last_char (p ++ "index.html") = Some "l"%char)
    by (rewrite last_char_app by discriminate; reflexivity).
  pose proof (endsWith_last_char _ _ _ E L) as H. discriminate H.
Qed.

(** X1: a URL whose path ends in "/" and the URL of the "index.html"
    under that path normalize to one and the same key, which is the
    latter URL; a URL whose path does not end in "/" is its own key; and
    normalizing twice changes nothing more. *)
Theorem normalizeNavigationUrl_directory_index :
  forall u : URL,
    (endsWith (pathname u) "/" = true ->
     normalizeNavigationUrl u =
       href (set_pathname (pathname u ++ "index.html") u) /\
     normalizeNavigationUrl (set_pathname (pathname u ++ "index.html") u) =
       normalizeNavigationUrl u) /\
    (endsWith (pathname u) "/" = false -> normalizeNavigationUrl u = href u).
Proof.
  intros u. split; intros H.
  - unfold normalizeNavigationUrl at 1 3. rewrite H. split; [reflexivity|].
    unfold normalizeNavigationUrl. simpl pathname.
    now rewrite index_html_is_not_a_directory.
  - unfold normalizeNavigationUrl. now rewrite H.
Qed.

Lemma normalizeNavigationUrl_directory_index_witness :
  normalizeNavigationUrl (url Sample.chapter) =
    "https://example.org/chapter/index.html" /\
  normalizeNavigationUrl (mkURL Sample.site "/chapter/index.html" "" "") =
    "https://example.org/chapter/index.html".
Proof.
  destruct (normalizeNavigationUrl_directory_index (url Sample.chapter)) as [H _].
  destruct (H eq_refl) as [H1 H2]. split; [exact H1|].
  destruct (normalizeNavigationUrl_directory_index
              (mkURL Sample.site "/chapter/index.html" "" "")) as [_ H3].
  exact (H3 eq_refl).
Defined.

(** ** Which requests the listener answers *)

Lemma early_route_not_PassThrough (o : string) (req : Request) :
  origin (url req) = o -> early_route o req <> Some PassThrough.
Proof.
  intros <-. unfold early_route. rewrite String.eqb_refl. simpl.
  repeat match goal with
         | |- context [if ?b then _ else _] => destruct b
         end; discriminate.
Qed.

(** X2: the listener leaves a request unanswered exactly when the
    request goes to another origin: every same-origin request gets
    [respondWith]. *)
Theorem not_intercepted_iff_cross_origin :
  forall (w : World) (req : Request),
    fst (onFetch req w) = NotIntercepted <->
    origin (url req) <> origin (location w).
Proof.
  intros w req. split.
  - intros H E. unfold onFetch, route in H.
    pose proof (early_route_not_PassThrough _ req E) as N.
    destruct (early_route (origin (location w)) req) as [r|].
    + destruct r; try congruence; unfold respondWith in H;
        match type of H with
        | fst (let (_, _) := ?m in _) = _ => destruct m; discriminate H
        end.
    + repeat match type of H with
             | context [if ?b then _ else _] => destruct b
             end; unfold respondWith in H;
        match type of H with
        | fst (let (_, _) := ?m in _) = _ => destruct m; discriminate H
        end.
  - intros H. unfold onFetch, route, early_route.
    destruct (origin (url req) =? origin (location w))%string eqn:E;
      [apply String.eqb_eq in E; contradiction | reflexivity].
Qed.

Lemma delivered_mode_is_not_print (req : Request) :
  delivered req -> (mode req =? "print")%string = false.
Proof.
  intros [_ M]. unfold request_modes in M. simpl in M.
  destruct M as [<- | [<- | [<- | [<- | [<- | []]]]]]; reflexivity.
Qed.

(** The tests of the listener on a request as the browser delivers it:
    those on the Sec-Fetch-Dest header and on the mode "print" fail. *)
Lemma early_route_delivered (o : string) (req : Request) :
  delivered req ->
  origin (url req) = o ->
  early_route o req =
  if includes (pathname (url req)) "print" || includes (search (url req)) "print"
  then Some Bypass
  else if includes (pathname (url req)) "/theming/" ||
          includes (pathname (url req)) "/site_libs/"
  then Some StaleWhileRevalidate
  else if (mode req =? "navigate")%string then Some Navigation
  else None.
Proof.
  intros D <-. unfold early_route. rewrite String.eqb_refl.
  rewrite (delivered_mode_is_not_print req D). destruct D as [H _].
  rewrite !(header_is_absent _ _ _ H). cbn [negb andb orb].
  rewrite !andb_false_r, !orb_false_r. reflexivity.
Qed.

(** X3: on a request as a browser delivers it (the Sec-Fetch-Dest
    header is added after the worker and is not visible to it; the mode
    is one of those of the Fetch standard, never "print") the tests of
    the listener on that header and on the mode "print" never hold: a
    same-origin request is bypassed exactly when its path or query
    contains "print", whatever its mode and destination; and a
    navigation without "print", outside the theming and site_libs
    directories, reaches [handleNavigation]. *)
Theorem delivered_requests_bypass_only_print :
  forall (o : string) (req : Request),
    delivered req ->
    origin (url req) = o ->
    (route o req = Bypass <->
     includes (pathname (url req)) "print" = true \/
     includes (search (url req)) "print" = true) /\
    (mode req = "navigate" ->
     route o req <> Bypass ->
     includes (pathname (url req)) "/theming/" = false ->
     includes (pathname (url req)) "/site_libs/" = false ->
     route o req = Navigation).
Proof.
  intros o req D O. unfold route. rewrite (early_route_delivered o req D O).
  split.
  - split.
    + intros R.
      destruct (includes (pathname (url req)) "print"); [now left|].
      destruct (includes (search (url req)) "print"); [now right|].
      exfalso. cbn [orb] in R.
      repeat match type of R with
             | context [if ?b then _ else _] => destruct b
             end; discriminate.
    + intros [-> | ->]; [reflexivity | now rewrite orb_true_r].
  - intros M NB T L. rewrite T, L, M. cbn [orb].
    destruct (includes (pathname (url req)) "print" ||
              includes (search (url req)) "print"); [contradiction|].
    reflexivity.
Qed.

Lemma delivered_requests_bypass_only_print_witness :
  route Sample.site Sample.chapter = Navigation /\
  route Sample.site Sample.notes_cors <> Bypass /\
  route Sample.site
    (mkRequest (mkURL Sample.site "/chapter/" "?print-pdf" "") "GET" "navigate"
       "document" []) = Bypass.
Proof.
  assert (D : delivered Sample.chapter) by (split; [reflexivity | simpl; tauto]).
  assert (D2 : delivered Sample.notes_cors) by (split; [reflexivity | simpl; tauto]).
  assert (D3 : delivered
                 (mkRequest (mkURL Sample.site "/chapter/" "?print-pdf" "") "GET"
                    "navigate" "document" []))
    by (split; [reflexivity | simpl; tauto]).
  destruct (delivered_requests_bypass_only_print Sample.site Sample.chapter
              D eq_refl) as [B N].
  destruct (delivered_requests_bypass_only_print Sample.site Sample.notes_cors
              D2 eq_refl) as [B2 _].
  destruct (delivered_requests_bypass_only_print Sample.site _ D3 eq_refl)
    as [B3 _].
  split; [|split].
  - apply N; try reflexivity.
    intros R. apply B in R. destruct R as [R | R]; discriminate R.
  - intros R. apply B2 in R. destruct R as [R | R]; discriminate R.
  - apply B3. right. reflexivity.
Defined.

(** ** The plot theme *)

(** X4: asked for "auto", or for nothing, [currentMode] answers "dark"
    or "light", the two keys of [brand]; a data-theme attribute "dark"
    or "light" decides alone, and otherwise the answer is "dark" only
    when the media query is there and matches.  Any other mode asked
    for is returned as it is, whether [brand] has it or not. *)
Theorem currentMode_auto_is_a_brand_key :
  forall (env : ThemeEnv) (mode : option string),
    (mode = None \/ mode = Some "auto" ->
     In (currentMode mode env) brand_keys /\
     (dataset_theme env = Some "dark" -> currentMode mode env = "dark") /\
     (dataset_theme env = Some "light" -> currentMode mode env = "light") /\
     (dataset_theme env <> Some "dark" -> dataset_theme env <> Some "light" ->
      (currentMode mode env = "dark" <-> prefers_dark env = Some true))) /\
    (forall m, mode = Some m -> m <> "auto" -> currentMode mode env = m).
Proof.
  intros env mode. split.
  - intros H.
    assert (E : currentMode mode env = currentMode None env)
      by (destruct H as [-> | ->]; reflexivity).
    rewrite E. clear E H. unfold currentMode, brand_keys. simpl.
    destruct (dataset_theme env) as [a|].
    + destruct (a =? "dark")%string eqn:Ed.
      * apply String.eqb_eq in Ed. subst a.
        repeat split; auto; try discriminate; try congruence.
      * destruct (a =? "light")%string eqn:El.
        -- apply String.eqb_eq in El. subst a.
           repeat split; auto; try discriminate; try congruence.
        -- apply String.eqb_neq in Ed, El.
           destruct (prefers_dark env) as [[|]|];
             repeat split; auto; try discriminate; try congruence.
    + destruct (prefers_dark env) as [[|]|];
        repeat split; auto; try discriminate; try congruence.
  - intros m -> Hm. unfold currentMode.
    apply String.eqb_neq in Hm. now rewrite Hm.
Qed.

Lemma currentMode_auto_is_a_brand_key_witness :
  currentMode (Some "auto") (mkThemeEnv (Some "sepia") (Some true)) = "dark" /\
  currentMode (Some "print") (mkThemeEnv (Some "dark") None) = "print".
Proof.
  destruct (currentMode_auto_is_a_brand_key
              (mkThemeEnv (Some "sepia") (Some true)) (Some "auto")) as [H _].
  destruct (H (or_intror eq_refl)) as [_ [_ [_ H4]]].
  split.
  - apply H4; [discriminate | discriminate | reflexivity].
  - destruct (currentMode_auto_is_a_brand_key
                (mkThemeEnv (Some "dark") None) (Some "print")) as [_ H5].
    apply (H5 "print"); [reflexivity | discriminate].
Defined.

(** ** More on the trim *)

Lemma trim_entries_within (cap : nat) (c : Cache) :
  length c <= cap -> trim_entries cap c = c.
Proof.
  intros H. unfold trim_entries.
  replace (length c - cap) with 0 by lia. reflexivity.
Qed.

Lemma filter_length_drop (p : string * Response -> bool) (n : nat) (c : Cache) :
  (forall e, In (fst e) (firstn n (entry_keys c)) -> p e = false) ->
  length (filter p c) <= length c - n.
Proof.
  revert n. induction c as [|e c IH]; intros n H; [simpl; lia|].
  destruct n as [|n].
  - rewrite Nat.sub_0_r. apply filter_length_le.
  - simpl. rewrite (H e) by (simpl; now left).
    apply IH. intros e' Hin. apply H. simpl. now right.
Qed.

(** The trim leaves at most [cap] entries, whatever the cache. *)
Lemma trim_entries_length (cap : nat) (c : Cache) :
  length (trim_entries cap c) <= cap.
Proof.
  unfold trim_entries. rewrite entry_delete_all_filter.
  assert (H : length (filter
                (fun e => negb (existsb (String.eqb (fst e))
                                  (firstn (length c - cap) (entry_keys c)))) c)
              <= length c - (length c - cap)).
  { apply filter_length_drop. intros e Hin.
    apply negb_false_iff, existsb_exists. exists (fst e).
    split; [exact Hin | apply String.eqb_refl]. }
  lia.
Qed.

Lemma limitCacheSize_exec_missing (name : string) (cap : nat) (w : World) :
  storage_lookup name (caches w) = None ->
  exec (limitCacheSize name cap) w = set_caches (caches w ++ [(name, [])]) w.
Proof.
  intros L. unfold limitCacheSize.
  rewrite (exec_bind_fulfilled _ _ w
             (set_caches (caches w ++ [(name, [])]) w) name).
  2:{ unfold caches_open, storage_has. now rewrite L. }
  rewrite (exec_bind_fulfilled _ _ _
             (set_caches (caches w ++ [(name, [])]) w) []).
  2:{ unfold cache_keys. simpl. now rewrite (storage_lookup_app_new _ _ L). }
  simpl. now destruct cap.
Qed.

(** The cache that [limitCacheSize] leaves under the name it was given,
    and the others. *)
Lemma limitCacheSize_lookup (name : string) (cap : nat) (w : World) :
  storage_lookup name (caches (exec (limitCacheSize name cap) w)) =
  Some (trim_entries cap
          (match storage_lookup name (caches w) with
           | Some c => c
           | None => []
           end)).
Proof.
  destruct (storage_lookup name (caches w)) as [c|] eqn:L.
  - rewrite (limitCacheSize_exec _ _ _ _ L).
    destruct (cap <? length c)%nat eqn:E.
    + simpl. now rewrite storage_lookup_update, L.
    + apply Nat.ltb_ge in E. now rewrite trim_entries_within.
  - rewrite (limitCacheSize_exec_missing _ _ _ L). simpl.
    now rewrite (storage_lookup_app_new _ _ L).
Qed.

Lemma storage_lookup_app_other (name other : string) (cs : CacheStorage) :
  other <> name ->
  storage_lookup other (cs ++ [(name, [])]) = storage_lookup other cs.
Proof.
  intros H. induction cs as [|[n c] cs IH]; simpl.
  - destruct (name =? other)%string eqn:E; [|reflexivity].
    apply String.eqb_eq in E. congruence.
  - now destruct (n =? other)%string.
Qed.

Lemma limitCacheSize_lookup_other (name other : string) (cap : nat) (w : World) :
  other <> name ->
  storage_lookup other (caches (exec (limitCacheSize name cap) w)) =
  storage_lookup other (caches w).
Proof.
  intros H. destruct (storage_lookup name (caches w)) as [c|] eqn:L.
  - rewrite (limitCacheSize_exec _ _ _ _ L).
    destruct (cap <? length c)%nat; [|reflexivity].
    simpl. now apply storage_lookup_update_other.
  - rewrite (limitCacheSize_exec_missing _ _ _ L). simpl.
    now apply storage_lookup_app_other.
Qed.

(** X5: [limitCacheSize] for a name under which there is no cache makes
    an empty cache of that name, at the end of the storage, and changes
    nothing else: trimming is not a pure read. *)
Theorem limitCacheSize_creates_missing_cache :
  forall (w : World) (name : string) (cap : nat),
    storage_lookup name (caches w) = None ->
    caches (exec (limitCacheSize name cap) w) = caches w ++ [(name, [])] /\
    fetched (exec (limitCacheSize name cap) w) = fetched w /\
    eval (limitCacheSize name cap) w = Fulfilled tt.
Proof.
  intros w name cap L.
  rewrite (limitCacheSize_exec_missing _ _ _ L). repeat split.
  unfold eval, limitCacheSize, bind, caches_open, cache_keys, storage_has.
  rewrite L. simpl. rewrite (storage_lookup_app_new _ _ L). simpl.
  now destruct cap.
Qed.

Lemma limitCacheSize_creates_missing_cache_witness :
  caches (exec (limitCacheSize RUNTIME_CACHE 50)
            (Sample.world true Sample.net_up [(STATIC_CACHE, [])])) =
  [(STATIC_CACHE, []); (RUNTIME_CACHE, [])].
Proof.
  apply (limitCacheSize_creates_missing_cache
           (Sample.world true Sample.net_up [(STATIC_CACHE, [])])
           RUNTIME_CACHE 50 eq_refl).
Defined.

(** X6: after [limitCacheSize] the cache of the given name exists and
    holds at most [cap] entries, whatever it held before and even for a
    cap of zero; and a second run in a row changes nothing. *)
Theorem limitCacheSize_bounds_and_is_idempotent :
  forall (w : World) (name : string) (cap : nat),
    (exists c,
       storage_lookup name (caches (exec (limitCacheSize name cap) w)) = Some c /\
       length c <= cap) /\
    exec (limitCacheSize name cap) (exec (limitCacheSize name cap) w) =
    exec (limitCacheSize name cap) w.
Proof.
  intros w name cap.
  pose proof (limitCacheSize_lookup name cap w) as L.
  split.
  - eexists. split; [exact L | apply trim_entries_length].
  - rewrite (limitCacheSize_exec _ _ _ _ L).
    pose proof (trim_entries_length cap
                  (match storage_lookup name (caches w) with
                   | Some c => c
                   | None => []
                   end)) as B.
    apply Nat.ltb_ge in B. now rewrite B.
Qed.

(** ** The caps, an invariant of the fetch listener *)

Lemma exec_put_then_trim (name key : string) (res : Response) (cap : nat) (w : World) :
  exec (cache_store name key res ;; detached (limitCacheSize name cap)) w =
  exec (limitCacheSize name cap)
    (set_caches (storage_update name (entry_put key res) (caches w)) w).
Proof. reflexivity. Qed.

Lemma put_then_trim_lookup (name key : string) (res : Response) (cap : nat) (w : World) :
  storage_lookup name
    (caches (exec (cache_store name key res ;; detached (limitCacheSize name cap)) w)) =
  Some (trim_entries cap
          (match storage_lookup name (caches w) with
           | Some c => entry_put key res c
           | None => []
           end)).
Proof.
  rewrite exec_put_then_trim, limitCacheSize_lookup. simpl.
  rewrite storage_lookup_update.
  now destruct (storage_lookup name (caches w)).
Qed.

Lemma put_then_trim_lookup_other (name other key : string) (res : Response)
    (cap : nat) (w : World) :
  other <> name ->
  storage_lookup other
    (caches (exec (cache_store name key res ;; detached (limitCacheSize name cap)) w)) =
  storage_lookup other (caches w).
Proof.
  intros H. rewrite exec_put_then_trim, limitCacheSize_lookup_other by exact H.
  simpl. now apply storage_lookup_update_other.
Qed.

Lemma caps_store_then_trim (name key : string) (res : Response) (cap : nat) :
  cap_of name = Some cap ->
  preserves within_caps
    (cache_store name key res ;; detached (limitCacheSize name cap)).
Proof.
  intros Hcap w H n c cap' L Hc. fold (exec (cache_store name key res ;;
    detached (limitCacheSize name cap)) w) in L.
  destruct (String.eqb_spec n name) as [-> | Hn].
  - rewrite put_then_trim_lookup in L. injection L as <-.
    assert (cap' = cap) by congruence. subst cap'. apply trim_entries_length.
  - rewrite put_then_trim_lookup_other in L by exact Hn. exact (H n c cap' L Hc).
Qed.

(** What [cache.put] comes to, by what it is given. *)
Lemma cache_put_cacheable (cache : string) (req : Request) (res : Response) :
  cacheable req res = true ->
  cache_put cache req res = cache_store cache (request_key req) res.
Proof. unfold cache_put. now intros ->. Qed.

Lemma cache_put_rejects (cache : string) (req : Request) (res : Response) :
  cacheable req res = false ->
  cache_put cache req res = throw "TypeError: Failed to execute 'put' on 'Cache'".
Proof. unfold cache_put. now intros ->. Qed.

Lemma caps_put_then_trim (name : string) (req : Request) (res : Response) (cap : nat) :
  cap_of name = Some cap ->
  preserves within_caps
    (cache_put name req res ;; detached (limitCacheSize name cap)).
Proof.
  intros Hcap. destruct (cacheable req res) eqn:C.
  - rewrite (cache_put_cacheable _ _ _ C). now apply caps_store_then_trim.
  - rewrite (cache_put_rejects _ _ _ C). intros w H. exact H.
Qed.

Lemma caps_caches_open (name : string) : preserves within_caps (caches_open name).
Proof.
  intros w H n c cap L Hc. unfold caches_open in L.
  destruct (storage_has name (caches w)) eqn:Hs; [exact (H n c cap L Hc)|].
  simpl in L. destruct (String.eqb_spec n name) as [-> | Hn].
  - rewrite (storage_lookup_app_new _ _ (storage_lookup_has_false _ _ Hs)) in L.
    injection L as <-. simpl. lia.
  - rewrite storage_lookup_app_other in L by exact Hn. exact (H n c cap L Hc).
Qed.

Lemma caps_fetch (req : Request) : preserves within_caps (fetch req).
Proof. intros w H. unfold fetch. now destruct (reply (network w req)). Qed.

Lemma caps_fetch_race (req : Request) (ms : nat) :
  preserves within_caps (fetch_race_timeout req ms).
Proof.
  intros w H. unfold fetch_race_timeout.
  destruct (latency (network w req) <=? ms)%nat; [now apply caps_fetch | exact H].
Qed.

Lemma caps_read {A : Type} (f : World -> A) :
  preserves within_caps (fun w => (Fulfilled (f w), w)).
Proof. intros w H. exact H. Qed.

Lemma preserves_bind_open {B : Type} (P : World -> Prop) (name : string)
    (k : string -> Async B) :
  preserves P (caches_open name) -> preserves P (k name) ->
  preserves P (cache <- caches_open name ;; k cache).
Proof.
  intros Ho Hk w H. specialize (Ho w H). unfold bind, caches_open in *.
  destruct (storage_has name (caches w)); now apply Hk.
Qed.

Ltac caps_step :=
  match goal with
  | |- forall _, _ => intros ?
  | |- preserves _ (if ?b then _ else _) => destruct b
  | |- preserves _ (match ?x with Some _ => _ | None => _ end) => destruct x
  | |- preserves _ (bind (caches_open _) _) =>
      apply preserves_bind_open; [apply caps_caches_open|]
  | |- preserves _ (bind (cache_put _ _ _) _) =>
      apply caps_put_then_trim; reflexivity
  | |- preserves _ (bind _ _) => apply preserves_bind
  | |- preserves _ (try_catch _ _) => apply preserves_try_catch
  | |- preserves _ (ret _) => apply preserves_ret
  | |- preserves _ (fetch _) => apply caps_fetch
  | |- preserves _ (fetch_race_timeout _ _) => apply caps_fetch_race
  | |- preserves _ (caches_match _) => apply caps_read
  | |- preserves _ (caches_match_request _) => apply caps_read
  | |- preserves _ (caches_match_url _) => apply (caps_read (fun w => _))
  | |- preserves _ (cache_match _ _) => apply caps_read
  | |- preserves _ navigator_onLine => apply caps_read
  end.

Lemma caps_cacheFirst (req : Request) : preserves within_caps (cacheFirst req).
Proof. unfold cacheFirst. repeat caps_step. Qed.

Lemma caps_networkFirst (req : Request) : preserves within_caps (networkFirst req).
Proof. unfold networkFirst. repeat caps_step. Qed.

Lemma caps_staleWhileRevalidate (req : Request) :
  preserves within_caps (staleWhileRevalidate req).
Proof. unfold staleWhileRevalidate. repeat caps_step. Qed.

Lemma caps_handleNavigation (req : Request) :
  preserves within_caps (handleNavigation req).
Proof. unfold handleNavigation. repeat caps_step. Qed.

(** X7: every write of the fetch listener is followed by the trim of
    the cache written, so a fetch event keeps the caps: if the static
    cache held at most 100 entries and the runtime cache at most 50
    before the event, they do after it, for every request and every
    answer of the network. *)
Theorem onFetch_keeps_caps :
  forall (w : World) (req : Request),
    within_caps w -> within_caps (snd (onFetch req w)).
Proof.
  intros w req H. unfold onFetch.
  destruct (route (origin (location w)) req); [exact H| | | | |];
    unfold respondWith, response;
    match goal with
    | |- within_caps (snd (let (_, _) := ?m w in _)) =>
        assert (K : preserves within_caps m) by
          (repeat caps_step;
           auto using caps_cacheFirst, caps_networkFirst,
             caps_staleWhileRevalidate, caps_handleNavigation);
        specialize (K w H); destruct (m w); exact K
    end.
Qed.

Lemma onFetch_keeps_caps_witness :
  within_caps
    (snd (onFetch Sample.app_css
            (Sample.world true Sample.net_up
               [(STATIC_CACHE, [("https://example.org/old.css", Sample.page "old")])]))).
Proof.
  apply onFetch_keeps_caps.
  intros name c cap L Hc.
  change (storage_lookup name
            [(STATIC_CACHE, [("https://example.org/old.css", Sample.page "old")])] =
          Some c) in L.
  cbn [storage_lookup] in L.
  destruct (STATIC_CACHE =? name)%string; [|discriminate L].
  injection L as <-. unfold cap_of in Hc.
  destruct (name =? RUNTIME_CACHE)%string;
    [|destruct (name =? STATIC_CACHE)%string];
    inversion Hc; unfold MAX_RUNTIME_ITEMS, MAX_STATIC_ITEMS; simpl; lia.
Defined.

(** ** Only ok answers are stored *)

Lemma same_matches_opened (name : string) (cs : CacheStorage) :
  same_matches cs (storage_opened name cs).
Proof.
  intros key. unfold storage_opened. destruct (storage_has name cs); [reflexivity|].
  rewrite storage_match_app. simpl.
  now destruct (storage_match key cs).
Qed.

Lemma navigation_fallback_reads (req : Request) (cached : option Response) (w : World) :
  caches (snd (match cached with
               | Some res => ret res
               | None =>
                   offlinePage <- caches_match_url OFFLINE_URL ;;
                   match offlinePage with
                   | Some page => ret page
                   | None =>
                       ret (mkResponse "Offline - Page not cached" 503
                              "Service Unavailable"
                              [("Content-Type", "text/plain")])
                   end
               end w)) = caches w.
Proof.
  destruct cached; [reflexivity|].
  unfold bind, caches_match_url, caches_match.
  now destruct (storage_match (without_fragment (resolve (location w) OFFLINE_URL))
                  (caches w)).
Qed.

Section NotOk.

Variables (w : World) (req : Request).
Hypothesis not_ok : forall res, reply (network w req) = Some res -> ok res = false.

Lemma cacheFirst_not_ok : caches (exec (cacheFirst req) w) = caches w.
Proof.
  unfold exec, cacheFirst, bind, try_catch, caches_match_request, fetch.
  destruct (request_match req (caches w)); [reflexivity|].
  destruct (reply (network w req)) as [res|] eqn:R; [|reflexivity].
  now rewrite (not_ok res eq_refl).
Qed.

Lemma networkFirst_not_ok : caches (exec (networkFirst req) w) = caches w.
Proof.
  unfold exec, networkFirst, bind, try_catch, caches_match_request, fetch.
  destruct (reply (network w req)) as [res|] eqn:R.
  - now rewrite (not_ok res eq_refl).
  - simpl. now destruct (request_match req (caches w)).
Qed.

Lemma handleNavigation_not_ok : caches (exec (handleNavigation req) w) = caches w.
Proof.
  unfold exec, handleNavigation. rewrite <- bind_assoc.
  rewrite (bind_fulfilled _ _ w w _ (handleNavigation_lookup req w)).
  unfold bind at 1, navigator_onLine.
  destruct (and_then (negb (onLine w)) (cached_copy req w)); [reflexivity|].
  unfold try_catch, bind at 1, fetch_race_timeout, fetch.
  destruct (latency (network w req) <=? 3000)%nat.
  - destruct (reply (network w req)) as [res|] eqn:R.
    + now rewrite (not_ok res eq_refl).
    + apply (navigation_fallback_reads req (cached_copy req w) (log_fetch req w)).
  - apply (navigation_fallback_reads req (cached_copy req w) (log_fetch req w)).
Qed.

Lemma staleWhileRevalidate_not_ok :
  caches (exec (staleWhileRevalidate req) w) =
  storage_opened RUNTIME_CACHE (caches w).
Proof.
  unfold exec, staleWhileRevalidate, bind, try_catch, caches_open, cache_match,
    fetch, storage_opened.
  destruct (storage_has RUNTIME_CACHE (caches w)); simpl;
    destruct (reply (network w req)) as [res|] eqn:R; try reflexivity;
    now rewrite (not_ok res eq_refl).
Qed.

End NotOk.

(** X8: unless the network answers a request with an ok response, no
    executor and no branch of the fetch listener stores anything: every
    key is answered from the caches after the event as it was before.
    Failures and responses such as a 404 or a 500 are never cached. *)
Theorem only_ok_answers_are_stored :
  forall (w : World) (req : Request),
    (forall res, reply (network w req) = Some res -> ok res = false) ->
    same_matches (caches w) (caches (exec (cacheFirst req) w)) /\
    same_matches (caches w) (caches (exec (networkFirst req) w)) /\
    same_matches (caches w) (caches (exec (handleNavigation req) w)) /\
    same_matches (caches w) (caches (exec (staleWhileRevalidate req) w)) /\
    same_matches (caches w) (caches (snd (onFetch req w))).
Proof.
  intros w req H.
  pose proof (cacheFirst_not_ok w req H) as H1.
  pose proof (networkFirst_not_ok w req H) as H2.
  pose proof (handleNavigation_not_ok w req H) as H3.
  pose proof (staleWhileRevalidate_not_ok w req H) as H4.
  assert (S4 : same_matches (caches w) (caches (exec (staleWhileRevalidate req) w)))
    by (rewrite H4; apply same_matches_opened).
  repeat split; intros key; try congruence; try apply S4.
  unfold onFetch. unfold exec in *.
  destruct (route (origin (location w)) req); unfold respondWith, response, bind.
  - reflexivity.
  - unfold fetch. now destruct (reply (network w req)).
  - specialize (S4 key). now destruct (staleWhileRevalidate req w).
  - destruct (handleNavigation req w) as [[r|e] w']; simpl in *; congruence.
  - destruct (cacheFirst req w) as [[r|e] w']; simpl in *; congruence.
  - destruct (networkFirst req w) as [[r|e] w']; simpl in *; congruence.
Qed.

Lemma only_ok_answers_are_stored_witness :
  same_matches
    (caches (Sample.world true (fun _ => mkNetOutcome 20 (Some (mkResponse "gone" 404 "" []))) []))
    (caches (snd (onFetch Sample.app_css
       (Sample.world true (fun _ => mkNetOutcome 20 (Some (mkResponse "gone" 404 "" []))) [])))).
Proof.
  apply (only_ok_answers_are_stored
           (Sample.world true
              (fun _ => mkNetOutcome 20 (Some (mkResponse "gone" 404 "" []))) [])
           Sample.app_css).
  simpl. intros res H. injection H as <-. reflexivity.
Defined.

(** ** What a write leaves in the caches *)

Lemma limitCacheSize_frame (name : string) (cap : nat) (w : World) :
  exists cs, exec (limitCacheSize name cap) w = set_caches cs w.
Proof.
  destruct (storage_lookup name (caches w)) as [c|] eqn:L.
  - rewrite (limitCacheSize_exec _ _ _ _ L).
    destruct (cap <? length c)%nat; eauto.
    exists (caches w). now rewrite set_caches_same.
  - rewrite (limitCacheSize_exec_missing _ _ _ L). eauto.
Qed.

Lemma trim_put_match (key : string) (res : Response) (cap : nat) (c : Cache) :
  1 <= cap -> entry_match key (trim_entries cap (entry_put key res c)) = Some res.
Proof. intros H. unfold trim_entries. now apply entry_match_put_trim. Qed.

Lemma entry_match_put_other (k key : string) (res : Response) (c : Cache) :
  k <> key -> entry_match k (entry_put key res c) = entry_match k c.
Proof.
  intros H. unfold entry_put, entry_delete. rewrite entry_match_app.
  rewrite entry_match_filter_keep.
  - simpl. apply String.eqb_neq in H. rewrite String.eqb_sym, H.
    now destruct (entry_match k c).
  - intros e ->. apply negb_true_iff. now apply String.eqb_neq.
Qed.

Lemma entry_match_filter_none (k : string) (p : string * Response -> bool) (c : Cache) :
  entry_match k c = None -> entry_match k (filter p c) = None.
Proof.
  induction c as [|[k' r] c IH]; simpl; [reflexivity|].
  destruct (k' =? k)%string eqn:E; [discriminate|]. intros H.
  destruct (p (k', r)); simpl; [rewrite E|]; now apply IH.
Qed.

Lemma trim_put_other_none (k key : string) (res : Response) (cap : nat) (c : Cache) :
  k <> key -> entry_match k c = None ->
  entry_match k (trim_entries cap (entry_put key res c)) = None.
Proof.
  intros H N. unfold trim_entries. rewrite entry_delete_all_filter.
  apply entry_match_filter_none. now rewrite entry_match_put_other.
Qed.

Lemma storage_match_update_none (k name : string) (f : Cache -> Cache)
    (cs : CacheStorage) :
  (forall c, entry_match k c = None -> entry_match k (f c) = None) ->
  storage_match k cs = None ->
  storage_match k (storage_update name f cs) = None.
Proof.
  intros Hf. induction cs as [|[n c] cs IH]; simpl; [reflexivity|].
  destruct (entry_match k c) eqn:E; [discriminate|]. simpl. intros H.
  destruct (n =? name)%string; simpl.
  - rewrite (Hf c E). simpl. now apply IH.
  - rewrite E. simpl. now apply IH.
Qed.

Lemma storage_match_of_lookup (k name : string) (cs : CacheStorage) (c : Cache)
    (res : Response) :
  storage_lookup name cs = Some c -> entry_match k c = Some res ->
  exists r, storage_match k cs = Some r.
Proof.
  induction cs as [|[n c'] cs IH]; simpl; [discriminate|].
  intros L M. destruct (entry_match k c') as [r|] eqn:E; [now exists r|].
  simpl. destruct (n =? name)%string; [|now apply IH].
  injection L as ->. congruence.
Qed.

Lemma storage_opened_lookup (name : string) (cs : CacheStorage) :
  storage_lookup name (storage_opened name cs) =
  Some (match storage_lookup name cs with Some c => c | None => [] end).
Proof.
  unfold storage_opened, storage_has.
  destruct (storage_lookup name cs) as [c|] eqn:L; [exact L|].
  now apply storage_lookup_app_new.
Qed.

Lemma caches_open_run (name : string) (w : World) :
  caches_open name w =
  (Fulfilled name, set_caches (storage_opened name (caches w)) w).
Proof.
  unfold caches_open, storage_opened.
  destruct (storage_has name (caches w)); [now rewrite set_caches_same | reflexivity].
Qed.

(** The world after the write of an entry and the trim, in a cache just
    opened: only the caches differ; the cache written answers the key
    with the response put; a key that nothing answered is answered with
    it; and no other key gets an answer it did not have. *)
Lemma open_store_trim (name key : string) (res : Response) (cap : nat) (w : World) :
  1 <= cap ->
  exists cs,
    (cache_store name key res ;; detached (limitCacheSize name cap))
      (set_caches (storage_opened name (caches w)) w) =
      (Fulfilled tt, set_caches cs w) /\
    (exists c, storage_lookup name cs = Some c /\ entry_match key c = Some res) /\
    (storage_match key (caches w) = None -> storage_match key cs = Some res) /\
    (forall k, k <> key -> storage_match k (caches w) = None ->
               storage_match k cs = None).
Proof.
  intros Hcap.
  pose proof (storage_opened_lookup name (caches w)) as L1.
  pose proof (same_matches_opened name (caches w)) as M1.
  remember (storage_opened name (caches w)) as cs1 eqn:Hcs1. clear Hcs1.
  remember (match storage_lookup name (caches w) with
            | Some c => c
            | None => []
            end) as c0 eqn:Hc0. clear Hc0.
  assert (L2 : storage_lookup name
                 (caches (set_caches (storage_update name (entry_put key res) cs1)
                            (set_caches cs1 w))) =
               Some (entry_put key res c0))
    by (simpl caches; now rewrite storage_lookup_update, L1).
  assert (E : (cache_store name key res ;; detached (limitCacheSize name cap))
                (set_caches cs1 w) =
              (Fulfilled tt,
               exec (limitCacheSize name cap)
                 (set_caches (storage_update name (entry_put key res) cs1)
                    (set_caches cs1 w)))) by reflexivity.
  rewrite E. rewrite (limitCacheSize_exec _ _ _ _ L2).
  destruct (cap <? length (entry_put key res c0))%nat.
  - eexists. split; [reflexivity|].
    simpl caches. rewrite storage_update_twice. split; [|split].
    + eexists. split; [rewrite storage_lookup_update, L1; reflexivity|].
      now apply entry_match_put_trim.
    + intros M. apply (storage_match_update_hit _ _ _ _ c0); trivial.
      * now rewrite M1.
      * now apply entry_match_put_trim.
    + intros k Hk M. apply storage_match_update_none; [|now rewrite M1].
      intros c Hc. rewrite entry_delete_all_filter.
      apply entry_match_filter_none. now rewrite entry_match_put_other.
  - exists (storage_update name (entry_put key res) cs1).
    split; [reflexivity|]. split; [|split].
    + eexists. split; [rewrite storage_lookup_update, L1; reflexivity|].
      apply entry_match_put_same.
    + intros M. apply (storage_match_update_hit _ _ _ _ c0); trivial.
      * now rewrite M1.
      * apply entry_match_put_same.
    + intros k Hk M. apply storage_match_update_none; [|now rewrite M1].
      intros c Hc. now rewrite entry_match_put_other.
Qed.

(** The same for [cache.put] of what the Cache API takes. *)
Lemma open_put_trim (name : string) (req : Request) (res : Response) (cap : nat)
    (w : World) :
  cacheable req res = true ->
  1 <= cap ->
  exists cs,
    (cache <- caches_open name ;;
     cache_put cache req res ;;
     detached (limitCacheSize name cap)) w = (Fulfilled tt, set_caches cs w) /\
    (exists c, storage_lookup name cs = Some c /\
               entry_match (request_key req) c = Some res) /\
    (storage_match (request_key req) (caches w) = None ->
     storage_match (request_key req) cs = Some res) /\
    (forall k, k <> request_key req -> storage_match k (caches w) = None ->
               storage_match k cs = None).
Proof.
  intros C Hcap.
  rewrite (bind_fulfilled _ _ _ _ _ (caches_open_run name w)).
  rewrite (cache_put_cacheable _ _ _ C).
  now apply open_store_trim.
Qed.

(** For what the Cache API refuses, [cache.put] rejects and nothing is
    written. *)
Lemma open_put_rejected {A : Type} (name : string) (req : Request) (res : Response)
    (k : unit -> Async A) (w : World) :
  cacheable req res = false ->
  (cache <- caches_open name ;; x <- cache_put cache req res ;; k x) w =
  (Rejected "TypeError: Failed to execute 'put' on 'Cache'",
   set_caches (storage_opened name (caches w)) w).
Proof.
  intros C.
  rewrite (bind_fulfilled _ _ _ _ _ (caches_open_run name w)).
  now rewrite (cache_put_rejects _ _ _ C).
Qed.

Lemma request_match_get (req : Request) (res : Response) (cs : CacheStorage) :
  cacheable req res = true ->
  request_match req cs = storage_match (request_key req) cs.
Proof.
  unfold cacheable, request_match.
  now destruct (method req =? "GET")%string.
Qed.

Lemma entry_match_request_get (req : Request) (res : Response) (c : Cache) :
  cacheable req res = true ->
  entry_match_request req c = entry_match (request_key req) c.
Proof.
  unfold cacheable, entry_match_request.
  now destruct (method req =? "GET")%string.
Qed.

Lemma request_match_opened (req : Request) (name : string) (cs : CacheStorage) :
  request_match req (storage_opened name cs) = request_match req cs.
Proof.
  unfold request_match. destruct (method req =? "GET")%string; [|reflexivity].
  apply same_matches_opened.
Qed.

(** X9: [networkFirst] settles with the response of the network, at
    once and without a look at the caches even when they hold a copy,
    when that response is not ok, and when it is ok and [cache.put]
    takes it (a GET request, no 206, no "Vary: *"); in the second case
    the response is then the entry of the runtime cache for the request.
    One fetch is made in every case. *)
Theorem networkFirst_prefers_the_network :
  forall (w : World) (req : Request) (res : Response),
    reply (network w req) = Some res ->
    fetched (exec (networkFirst req) w) = fetched w ++ [req] /\
    (ok res = false -> eval (networkFirst req) w = Fulfilled res) /\
    (ok res = true -> cacheable req res = true ->
     eval (networkFirst req) w = Fulfilled res /\
     runtime_entry req (exec (networkFirst req) w) = Some res).
Proof.
  intros w req res N. unfold eval, exec, networkFirst, try_catch.
  rewrite (bind_fulfilled _ _ _ _ _ (fetch_answers _ _ _ N)).
  destruct (ok res) eqn:K.
  - destruct (cacheable req res) eqn:C.
    + destruct (open_put_trim RUNTIME_CACHE req (clone res)
                  MAX_RUNTIME_ITEMS (log_fetch req w) C)
        as [cs [E [[c [L M]] _]]]; [unfold MAX_RUNTIME_ITEMS; lia|].
      rewrite (bind_fulfilled _ _ _ _ _ E). simpl.
      split; [reflexivity|]. split; [discriminate|]. intros _ _.
      split; [reflexivity|]. unfold runtime_entry. simpl. rewrite L.
      now rewrite (entry_match_request_get _ _ _ C).
    + unfold bind at 1.
      rewrite (open_put_rejected RUNTIME_CACHE req (clone res) _ _ C).
      unfold bind, caches_match_request.
      split; [|split; discriminate].
      now destruct (request_match req _).
  - simpl. split; [reflexivity|]. split; [reflexivity | discriminate].
Qed.

Lemma networkFirst_prefers_the_network_witness :
  eval (networkFirst Sample.search_json)
    (Sample.world true Sample.net_up
       [(RUNTIME_CACHE,
         [("https://example.org/data/search.json", Sample.page "old")])]) =
    Fulfilled (Sample.page "https://example.org/data/search.json") /\
  runtime_entry Sample.search_json
    (exec (networkFirst Sample.search_json)
       (Sample.world true Sample.net_up
          [(RUNTIME_CACHE,
            [("https://example.org/data/search.json", Sample.page "old")])])) =
    Some (Sample.page "https://example.org/data/search.json").
Proof.
  destruct (networkFirst_prefers_the_network
              (Sample.world true Sample.net_up
                 [(RUNTIME_CACHE,
                   [("https://example.org/data/search.json", Sample.page "old")])])
              Sample.search_json
              (Sample.page "https://example.org/data/search.json") eq_refl)
    as [_ [_ H]].
  exact (H eq_refl eq_refl).
Defined.

Lemma cache_match_opened (name : string) (req : Request) (w : World) :
  cache_match name req (set_caches (storage_opened name (caches w)) w) =
  (Fulfilled (match storage_lookup name (caches w) with
              | Some c => entry_match_request req c
              | None => None
              end),
   set_caches (storage_opened name (caches w)) w).
Proof.
  unfold cache_match. simpl caches. rewrite storage_opened_lookup.
  destruct (storage_lookup name (caches w)); [reflexivity|].
  unfold entry_match_request. now destruct (method req =? "GET")%string.
Qed.

Lemma staleWhileRevalidate_ok_run (req : Request) (w : World) (res : Response) :
  network_answers_ok w req res ->
  cacheable req res = true ->
  staleWhileRevalidate req w =
  (Fulfilled (or_else (runtime_entry req w) (Some res)),
   exec (cache_store RUNTIME_CACHE (request_key req) res ;;
         detached (limitCacheSize RUNTIME_CACHE MAX_RUNTIME_ITEMS))
     (log_fetch req (set_caches (storage_opened RUNTIME_CACHE (caches w)) w))).
Proof.
  intros [N K] C. unfold staleWhileRevalidate.
  rewrite (bind_fulfilled _ _ _ _ _ (caches_open_run RUNTIME_CACHE w)).
  rewrite (bind_fulfilled _ _ _ _ _ (cache_match_opened RUNTIME_CACHE req w)).
  fold (runtime_entry req w).
  unfold bind at 1, try_catch.
  rewrite (bind_fulfilled _ _ _ _ res
             (fetch_answers req (set_caches (storage_opened RUNTIME_CACHE (caches w)) w)
                res N)).
  rewrite K. unfold clone. rewrite (cache_put_cacheable _ _ _ C). reflexivity.
Qed.

(** X10: when the network answers with an ok response that [cache.put]
    takes (a GET request, no 206, no "Vary: *"),
    [staleWhileRevalidate] settles with the entry that the runtime
    cache held before, the stale one, if there was one, and with the
    fresh response otherwise; in both cases the fresh response is the
    entry of the runtime cache afterwards, and one fetch was made. *)
Theorem staleWhileRevalidate_serves_stale_stores_fresh :
  forall (w : World) (req : Request) (res : Response),
    network_answers_ok w req res ->
    cacheable req res = true ->
    eval (staleWhileRevalidate req) w =
      Fulfilled (Some (match runtime_entry req w with
                       | Some stale => stale
                       | None => res
                       end)) /\
    runtime_entry req (exec (staleWhileRevalidate req) w) = Some res /\
    fetched (exec (staleWhileRevalidate req) w) = fetched w ++ [req].
Proof.
  intros w req res H C. unfold eval, exec.
  rewrite (staleWhileRevalidate_ok_run _ _ _ H C). simpl fst. simpl snd.
  split; [now destruct (runtime_entry req w)|]. split.
  - unfold runtime_entry. rewrite put_then_trim_lookup. simpl caches.
    rewrite storage_opened_lookup, (entry_match_request_get _ _ _ C).
    apply trim_put_match. unfold MAX_RUNTIME_ITEMS. lia.
  - rewrite exec_put_then_trim.
    destruct (limitCacheSize_frame RUNTIME_CACHE MAX_RUNTIME_ITEMS
                (set_caches
                   (storage_update RUNTIME_CACHE (entry_put (request_key req) res)
                      (caches (log_fetch req
                         (set_caches (storage_opened RUNTIME_CACHE (caches w)) w))))
                   (log_fetch req
                      (set_caches (storage_opened RUNTIME_CACHE (caches w)) w))))
      as [cs ->].
    reflexivity.
Qed.

Lemma staleWhileRevalidate_serves_stale_stores_fresh_witness :
  eval (staleWhileRevalidate Sample.quarto_js)
    (Sample.world true Sample.net_up
       [(RUNTIME_CACHE,
         [("https://example.org/site_libs/quarto-html/quarto.js",
           Sample.page "stale")])]) =
  Fulfilled (Some (Sample.page "stale")) /\
  runtime_entry Sample.quarto_js
    (exec (staleWhileRevalidate Sample.quarto_js)
       (Sample.world true Sample.net_up
          [(RUNTIME_CACHE,
            [("https://example.org/site_libs/quarto-html/quarto.js",
              Sample.page "stale")])])) =
  Some (Sample.page "https://example.org/site_libs/quarto-html/quarto.js").
Proof.
  destruct (staleWhileRevalidate_serves_stale_stores_fresh
              (Sample.world true Sample.net_up
                 [(RUNTIME_CACHE,
                   [("https://example.org/site_libs/quarto-html/quarto.js",
                     Sample.page "stale")])])
              Sample.quarto_js
              (Sample.page "https://example.org/site_libs/quarto-html/quarto.js")
              (conj eq_refl eq_refl) eq_refl) as [H1 [H2 _]].
  split; [exact H1 | exact H2].
Defined.

(** ** A navigation that succeeds, and the next one off line *)

Lemma handleNavigation_ok_run (req : Request) (w : World) (res : Response) :
  and_then (negb (onLine w)) (cached_copy req w) = None ->
  latency (network w req) <= 3000 ->
  network_answers_ok w req res ->
  cacheable req res = true ->
  exists cs,
    handleNavigation req w = (Fulfilled res, set_caches cs (log_fetch req w)) /\
    (exists c, storage_lookup RUNTIME_CACHE cs = Some c /\
               entry_match (request_key req) c = Some res) /\
    (storage_match (request_key req) (caches w) = None ->
     storage_match (request_key req) cs = Some res) /\
    (forall k, k <> request_key req -> storage_match k (caches w) = None ->
               storage_match k cs = None).
Proof.
  intros A T [N K] C.
  destruct (open_put_trim RUNTIME_CACHE req (clone res)
              MAX_RUNTIME_ITEMS (log_fetch req w) C) as [cs [E P]];
    [unfold MAX_RUNTIME_ITEMS; lia|].
  exists cs. split; [|exact P].
  unfold handleNavigation. rewrite <- bind_assoc.
  rewrite (bind_fulfilled _ _ w w _ (handleNavigation_lookup req w)).
  unfold bind at 1, navigator_onLine. rewrite A.
  unfold try_catch.
  assert (F : fetch_race_timeout req 3000 w = (Fulfilled res, log_fetch req w)).
  { unfold fetch_race_timeout. apply Nat.leb_le in T. rewrite T.
    now apply fetch_answers. }
  rewrite (bind_fulfilled _ _ _ _ _ F). rewrite K.
  now rewrite (bind_fulfilled _ _ _ _ _ E).
Qed.

Lemma cached_copy_set_onLine (b : bool) (req : Request) (w : World) :
  cached_copy req (set_onLine b w) = cached_copy req w.
Proof. reflexivity. Qed.

(** X11: a navigation made on line, or with nothing cached for the
    page, that the network answers within the 3000 ms with an ok
    response that [cache.put] takes (a GET request, no 206, no
    "Vary: *") settles with that response, even when a copy is cached,
    and stores it in the runtime cache under the request's own URL; the
    same navigation made next, off line, is answered from the caches
    without a fetch, and with that very response when nothing was cached
    for the page before. *)
Theorem navigation_success_then_offline :
  forall (w : World) (req : Request) (res : Response),
    onLine w = true \/ cached_copy req w = None ->
    latency (network w req) <= 3000 ->
    network_answers_ok w req res ->
    cacheable req res = true ->
    eval (handleNavigation req) w = Fulfilled res /\
    runtime_entry req (exec (handleNavigation req) w) = Some res /\
    fetched (exec (handleNavigation req) w) = fetched w ++ [req] /\
    exists again,
      handleNavigation req (set_onLine false (exec (handleNavigation req) w)) =
        (Fulfilled again, set_onLine false (exec (handleNavigation req) w)) /\
      (cached_copy req w = None -> again = res).
Proof.
  intros w req res A T H C.
  assert (A' : and_then (negb (onLine w)) (cached_copy req w) = None).
  { destruct A as [-> | ->]; [reflexivity | now destruct (onLine w)]. }
  destruct (handleNavigation_ok_run req w res A' T H C)
    as [cs [E [[c [L M]] [Hit Miss]]]].
  unfold eval, exec. rewrite E. simpl fst. simpl snd.
  split; [reflexivity|].
  split; [unfold runtime_entry; simpl;
          now rewrite L, (entry_match_request_get _ _ _ C)|].
  split; [reflexivity|].
  destruct (storage_match_of_lookup _ _ _ _ _ L M) as [r Hr].
  assert (C' : exists again,
             cached_copy req (set_caches cs (log_fetch req w)) = Some again /\
             (cached_copy req w = None -> again = res)).
  { unfold cached_copy. simpl caches. rewrite !(request_match_get _ _ _ C).
    destruct (storage_match (page_key (url req)) (caches w))
      as [p|] eqn:Mn; simpl.
    - destruct (storage_match (page_key (url req)) cs) as [q|].
      + exists q. split; [reflexivity | discriminate].
      + exists r. simpl. split; [exact Hr | discriminate].
    - intros. destruct (String.eqb_spec (page_key (url req)) (request_key req))
        as [Eq | Ne].
      + rewrite Eq in *. rewrite Hr. exists r. split; [reflexivity|].
        intros Hn. rewrite (Hit Hn) in Hr. congruence.
      + rewrite (Miss _ Ne Mn). simpl. rewrite Hr. exists r.
        split; [reflexivity|]. intros Hn. rewrite (Hit Hn) in Hr. congruence. }
  destruct C' as [again [Ca Cr]]. exists again. split; [|exact Cr].
  apply handleNavigation_offline_hit; [reflexivity|].
  now rewrite cached_copy_set_onLine.
Qed.

Lemma navigation_success_then_offline_witness :
  eval (handleNavigation (Sample.anchored "/chapter/" "#part-2" "navigate" "document"))
    (Sample.world true Sample.net_up []) =
    Fulfilled (Sample.page "https://example.org/chapter/#part-2") /\
  runtime_entry Sample.chapter
    (exec (handleNavigation
             (Sample.anchored "/chapter/" "#part-2" "navigate" "document"))
       (Sample.world true Sample.net_up [])) =
    Some (Sample.page "https://example.org/chapter/#part-2").
Proof.
  destruct (navigation_success_then_offline
              (Sample.world true Sample.net_up [])
              (Sample.anchored "/chapter/" "#part-2" "navigate" "document")
              (Sample.page "https://example.org/chapter/#part-2")
              (or_introl eq_refl)) as [H1 [H2 _]].
  - simpl. lia.
  - split; reflexivity.
  - reflexivity.
  - split; [exact H1 | exact H2].
Defined.

(** X12: when the timeout of a navigation wins the race, the answer of
    the network, however good, is dropped: the fetch was issued, but
    the caches after the navigation are the caches before it, so the
    page is not there for a later visit off line. *)
Theorem navigation_timeout_stores_nothing :
  forall (w : World) (req : Request),
    3000 < latency (network w req) ->
    caches (exec (handleNavigation req) w) = caches w /\
    cached_copy req (exec (handleNavigation req) w) = cached_copy req w.
Proof.
  intros w req T.
  destruct (handleNavigation_network_down req w (or_intror T)) as [w' [C E]].
  unfold exec, cached_copy. rewrite E. simpl snd. now rewrite C.
Qed.

Lemma navigation_timeout_stores_nothing_witness :
  caches (exec (handleNavigation Sample.chapter)
            (Sample.world true Sample.net_slow [])) = [].
Proof.
  apply (navigation_timeout_stores_nothing
           (Sample.world true Sample.net_slow []) Sample.chapter).
  simpl. lia.
Defined.

(** ** After the activation *)

Lemma storage_match_filter_source (key : string) (p : string * Cache -> bool)
    (cs : CacheStorage) (res : Response) :
  storage_match key (filter p cs) = Some res ->
  exists name c, In (name, c) cs /\ p (name, c) = true /\
                 entry_match key c = Some res.
Proof.
  induction cs as [|[n c] cs IH]; simpl; [discriminate|].
  destruct (p (n, c)) eqn:P; simpl.
  - destruct (entry_match key c) as [r|] eqn:E; simpl.
    + intros H. injection H as ->. exists n, c. auto.
    + intros H. destruct (IH H) as [n' [c' [Hin H']]]. exists n', c'. auto.
  - intros H. destruct (IH H) as [n' [c' [Hin H']]]. exists n', c'. auto.
Qed.

(** X13: once the activation has run, whatever [caches.match] finds
    comes from a cache that bears the current static or runtime name:
    no entry of another version is served any more; and a second
    activation in a row changes nothing. *)
Theorem after_activation_only_current_caches_answer :
  forall (w : World),
    (forall key res,
       storage_match key (caches (exec onActivate w)) = Some res ->
       exists name c,
         (name = STATIC_CACHE \/ name = RUNTIME_CACHE) /\
         In (name, c) (caches w) /\ entry_match key c = Some res) /\
    exec onActivate (exec onActivate w) = exec onActivate w.
Proof.
  intros w. split.
  - intros key res H. rewrite onActivate_exec in H. simpl caches in H.
    destruct (storage_match_filter_source _ _ _ _ H) as [n [c [Hin [P M]]]].
    exists n, c. simpl in P. apply current_store_spec in P. auto.
  - rewrite !onActivate_exec. simpl caches. rewrite set_caches_twice.
    f_equal. rewrite filter_twice. apply filter_ext.
    intros nc. now destruct (current_store (fst nc)).
Qed.

Lemma after_activation_only_current_caches_answer_witness :
  exists name c,
    (name = STATIC_CACHE \/ name = RUNTIME_CACHE) /\
    In (name, c)
      [("static-v1.0.6", [("/a", Sample.page "a")]);
       ("static-v1.0.7", [("/b", Sample.page "b")])] /\
    entry_match "/b" c = Some (Sample.page "b").
Proof.
  destruct (after_activation_only_current_caches_answer
              (Sample.world true Sample.net_up
                 [("static-v1.0.6", [("/a", Sample.page "a")]);
                  ("static-v1.0.7", [("/b", Sample.page "b")])])) as [H _].
  exact (H "/b" (Sample.page "b") eq_refl).
Defined.

(** ** Installation *)

Lemma append_nil_r (a : string) : (a ++ "")%string = a.
Proof. induction a as [|x a IH]; simpl; [reflexivity | now rewrite IH]. Qed.

Lemma append_inj_l (a x y : string) : (a ++ x = a ++ y)%string -> x = y.
Proof.
  induction a as [|c a IH]; simpl; [trivial|].
  intros H. injection H as H. now apply IH.
Qed.

Lemma href_resolve_URL (base : URL) (u : string) :
  startsWith u "./" = true -> href (resolve_URL base u) = resolve base u.
Proof.
  intros H. unfold href, resolve, resolve_URL. rewrite H. simpl.
  now rewrite append_nil_r.
Qed.

(** How one entry of the manifest runs: it always settles fulfilled; it
    stores the answer when it is ok and nothing otherwise. *)
Lemma precache_one_run (cache url : string) (w : World) :
  precache_one cache url w =
  (Fulfilled tt,
   set_caches
     (match precache_answer w url with
      | Some res =>
          storage_update cache (entry_put (precache_key w url) res) (caches w)
      | None => caches w
      end)
     (log_fetch (new_Request (resolve_URL (location w) url)) w)).
Proof.
  unfold precache_one, try_catch, cache_add, fetch_ok, bind, fetch,
    precache_answer, precache_key, console_warn, throw, ret, cache_store.
  destruct (reply (network w (new_Request (resolve_URL (location w) url))))
    as [res|]; [|reflexivity].
  now destruct (ok res); destruct (storable res).
Qed.

Lemma storage_update_same (name : string) (cs : CacheStorage) :
  storage_update name (fun c => c) cs = cs.
Proof. apply storage_update_id. Qed.

Lemma precache_puts_ext (w w' : World) (l : list string) (c : Cache) :
  location w' = location w -> network w' = network w ->
  precache_puts w' l c = precache_puts w l c.
Proof.
  intros Hl Hn. revert c. induction l as [|url l IH]; intros c; [reflexivity|].
  simpl. unfold precache_answer, precache_key. now rewrite Hl, Hn, IH.
Qed.

Lemma precache_run (cache : string) (l : list string) (w : World) :
  Promise_allSettled (map (fun url => precache_one cache url) l) w =
  (Fulfilled (map (fun _ => Fulfilled tt) l),
   mkWorld (location w) (onLine w) (network w)
     (storage_update cache (precache_puts w l) (caches w))
     (fetched w ++
      map (fun url => new_Request (resolve_URL (location w) url)) l)).
Proof.
  revert w. induction l as [|url l IH]; intros w.
  - simpl. rewrite storage_update_same, app_nil_r. now destruct w.
  - simpl map. cbn [Promise_allSettled]. rewrite precache_one_run.
    rewrite IH. cbn [location onLine network caches fetched set_caches log_fetch].
    f_equal. f_equal.
    + destruct (precache_answer w url) as [res|] eqn:A.
      * rewrite storage_update_twice. apply storage_update_ext. intros c.
        rewrite (precache_puts_ext w) by reflexivity.
        cbn [precache_puts]. now rewrite A.
      * apply storage_update_ext. intros c.
        rewrite (precache_puts_ext w) by reflexivity.
        cbn [precache_puts]. now rewrite A.
    + now rewrite <- app_assoc.
Qed.

Lemma precache_puts_other (w : World) (l : list string) (c : Cache) (k : string) :
  ~ In k (map (precache_key w) l) ->
  entry_match k (precache_puts w l c) = entry_match k c.
Proof.
  revert c. induction l as [|url l IH]; intros c H; [reflexivity|].
  simpl in *. rewrite IH by tauto.
  destruct (precache_answer w url); [|reflexivity].
  apply entry_match_put_other. intros ->. tauto.
Qed.

Lemma precache_puts_stored (w : World) (l : list string) (c : Cache)
    (url : string) (res : Response) :
  NoDup (map (precache_key w) l) ->
  In url l -> precache_answer w url = Some res ->
  entry_match (precache_key w url) (precache_puts w l c) = Some res.
Proof.
  revert c. induction l as [|u l IH]; intros c ND Hin A; [contradiction|].
  simpl in ND. apply NoDup_cons_iff in ND. destruct ND as [Hu ND].
  destruct Hin as [-> | Hin].
  - simpl. rewrite A. rewrite precache_puts_other by exact Hu.
    apply entry_match_put_same.
  - simpl. now apply IH.
Qed.

Lemma NoDup_map_injective {A B : Type} (f : A -> B) (l : list A) :
  (forall x y, f x = f y -> x = y) -> NoDup l -> NoDup (map f l).
Proof.
  intros Hf ND. induction ND as [|x l Hx ND IH]; simpl; constructor; [|exact IH].
  intros Hin. apply in_map_iff in Hin. destruct Hin as [y [E Hy]].
  apply Hf in E. now subst y.
Qed.

Lemma without_fragment_app (a b : string) :
  without_fragment a = a ->
  without_fragment (a ++ b) = (a ++ without_fragment b)%string.
Proof.
  induction a as [|c a IH]; simpl; [reflexivity|].
  destruct (Ascii.eqb c "#"); [discriminate|].
  intros H. injection H as H. now rewrite IH.
Qed.

Lemma without_fragment_dirname (p : string) :
  without_fragment p = p -> without_fragment (dirname p) = dirname p.
Proof.
  induction p as [|c p IH]; simpl; [reflexivity|].
  destruct (Ascii.eqb c "#") eqn:Hc; [discriminate|].
  intros H. injection H as H.
  destruct (includes p "/").
  - simpl. now rewrite Hc, IH.
  - now destruct (Ascii.eqb c "/").
Qed.

Lemma precache_key_parsed (w : World) (url : string) :
  parsed_location w ->
  precache_key w url =
  (origin (location w) ++ dirname (pathname (location w)) ++
   without_fragment (string_drop 2 url))%string.
Proof.
  intros [Ho Hp]. unfold precache_key, href, resolve_URL.
  cbn [origin pathname search hash].
  rewrite !append_nil_r.
  rewrite without_fragment_app by exact Ho.
  now rewrite without_fragment_app by now apply without_fragment_dirname.
Qed.

Lemma PRECACHE_keys_distinct (w : World) :
  parsed_location w -> NoDup (map (precache_key w) PRECACHE).
Proof.
  intros P.
  assert (E : map (precache_key w) PRECACHE =
              map (fun t => (origin (location w) ++
                             dirname (pathname (location w)) ++ t)%string)
                (map (fun u => without_fragment (string_drop 2 u)) PRECACHE)).
  { rewrite map_map. apply map_ext. intros u. now apply precache_key_parsed. }
  rewrite E. apply NoDup_map_injective.
  - intros x y H. apply append_inj_l in H. now apply append_inj_l in H.
  - vm_compute. repeat constructor; simpl; intuition discriminate.
Qed.

Lemma onInstall_run (w : World) :
  onInstall w =
  (Fulfilled (map (fun _ => Fulfilled tt) PRECACHE),
   mkWorld (location w) (onLine w) (network w)
     (storage_update STATIC_CACHE (precache_puts w PRECACHE)
        (storage_opened STATIC_CACHE (caches w)))
     (fetched w ++
      map (fun url => new_Request (resolve_URL (location w) url)) PRECACHE)).
Proof.
  unfold onInstall.
  rewrite (bind_fulfilled _ _ _ _ _ (caches_open_run STATIC_CACHE w)).
  rewrite precache_run. reflexivity.
Qed.

Lemma precache_puts_failed (w : World) (l : list string) (c : Cache) (url : string) :
  NoDup (map (precache_key w) l) ->
  In url l -> precache_answer w url = None ->
  entry_match (precache_key w url) (precache_puts w l c) =
  entry_match (precache_key w url) c.
Proof.
  revert c. induction l as [|u l IH]; intros c ND Hin A; [contradiction|].
  simpl in ND. apply NoDup_cons_iff in ND. destruct ND as [Hu ND].
  destruct Hin as [-> | Hin].
  - simpl. rewrite A. now apply precache_puts_other.
  - simpl. rewrite IH by assumption.
    destruct (precache_answer w u); [|reflexivity].
    apply entry_match_put_other. intros E. apply Hu. rewrite <- E.
    now apply in_map.
Qed.

Lemma onInstall_static_entry (w : World) (url : string) :
  parsed_location w ->
  In url PRECACHE ->
  cache_entry STATIC_CACHE (precache_key w url) (exec onInstall w) =
  match precache_answer w url with
  | Some res => Some res
  | None => cache_entry STATIC_CACHE (precache_key w url) w
  end.
Proof.
  intros P Hin. unfold exec, cache_entry. rewrite onInstall_run. cbn [snd caches].
  rewrite storage_lookup_update, storage_opened_lookup. cbn [option_map].
  destruct (precache_answer w url) as [res|] eqn:A.
  - now apply precache_puts_stored; [apply PRECACHE_keys_distinct| |].
  - rewrite precache_puts_failed;
      [|now apply PRECACHE_keys_distinct | exact Hin | exact A].
    now destruct (storage_lookup STATIC_CACHE (caches w)).
Qed.

(** X14: the install step never fails and a URL of the manifest that
    cannot be fetched costs the others nothing.  For a worker whose
    location is a parsed URL: the promise given to [waitUntil] is
    fulfilled with one fulfilled outcome per URL; all the URLs are
    fetched, each with a GET request in cors mode; afterwards the static
    cache answers each URL that the network answered with an ok response
    that the Cache API takes (not a 206, no "Vary: *") by that response,
    and each other URL as it did before. *)
Theorem install_isolates_failures :
  forall (w : World),
    parsed_location w ->
    eval onInstall w = Fulfilled (map (fun _ => Fulfilled tt) PRECACHE) /\
    fetched (exec onInstall w) =
      fetched w ++ map (fun url => new_Request (resolve_URL (location w) url)) PRECACHE /\
    (forall url res,
       In url PRECACHE ->
       reply (network w (new_Request (resolve_URL (location w) url))) = Some res ->
       ok res = true -> storable res = true ->
       cache_entry STATIC_CACHE (precache_key w url) (exec onInstall w) = Some res) /\
    (forall url,
       In url PRECACHE -> precache_answer w url = None ->
       cache_entry STATIC_CACHE (precache_key w url) (exec onInstall w) =
       cache_entry STATIC_CACHE (precache_key w url) w).
Proof.
  intros w P. split; [|split; [|split]].
  - unfold eval. now rewrite onInstall_run.
  - unfold exec. now rewrite onInstall_run.
  - intros url res Hin R Hok Hst.
    rewrite onInstall_static_entry by assumption.
    unfold precache_answer. now rewrite R, Hok, Hst.
  - intros url Hin A. now rewrite onInstall_static_entry, A.
Qed.

Lemma install_isolates_failures_witness :
  cache_entry STATIC_CACHE "https://example.org/notes/pwa/offline.html"
    (exec onInstall (Sample.world true Sample.net_install [])) =
    Some (Sample.page "ok") /\
  cache_entry STATIC_CACHE "https://example.org/notes/pwa/icons/icon-192.png"
    (exec onInstall (Sample.world true Sample.net_install [])) = None /\
  cache_entry STATIC_CACHE "https://example.org/notes/pwa/manifest.webmanifest"
    (exec onInstall (Sample.world true Sample.net_install [])) = None.
Proof.
  assert (P : parsed_location (Sample.world true Sample.net_install []))
    by (split; vm_compute; reflexivity).
  destruct (install_isolates_failures
              (Sample.world true Sample.net_install []) P) as [_ [_ [S F]]].
  split; [|split].
  - apply (S "./pwa/offline.html" (Sample.page "ok"));
      [vm_compute; tauto | reflexivity | reflexivity | reflexivity].
  - apply (F "./pwa/icons/icon-192.png"); [|reflexivity].
    vm_compute. tauto.
  - apply (F "./pwa/manifest.webmanifest"); [|reflexivity].
    vm_compute. tauto.
Defined.

(** X15: for a worker whose location is a parsed URL, if the offline
    page was answered with an ok response that the Cache API takes
    during the install step, then in any later state with those caches
    a navigation that fails or times out, with no cached copy of its
    page, is answered with a cached offline document and not with the
    synthetic 503; the document is the response stored by the install
    step unless a cache held one under that URL already. *)
Theorem install_provides_offline_fallback :
  forall (w w' : World) (req : Request) (res : Response),
    parsed_location w ->
    reply (network w (new_Request (resolve_URL (location w) OFFLINE_URL))) = Some res ->
    ok res = true -> storable res = true ->
    caches w' = caches (exec onInstall w) ->
    location w' = location w ->
    network_fails w' req \/ network_times_out w' req ->
    cached_copy req w' = None ->
    exists page,
      offline_document w' = Some page /\
      eval (handleNavigation req) w' = Fulfilled page /\
      (offline_document w = None -> page = res).
Proof.
  intros w w' req res PL Rp Hok Hst C Loc N Miss.
  assert (A : precache_answer w OFFLINE_URL = Some res)
    by (unfold precache_answer; now rewrite Rp, Hok, Hst).
  assert (K : precache_key w OFFLINE_URL =
              without_fragment (resolve (location w) OFFLINE_URL))
    by (unfold precache_key; now rewrite href_resolve_URL).
  assert (Hin : In OFFLINE_URL PRECACHE) by (vm_compute; tauto).
  pose proof (onInstall_static_entry w OFFLINE_URL PL Hin) as E.
  rewrite A, K in E. unfold cache_entry in E.
  destruct (storage_lookup STATIC_CACHE (caches (exec onInstall w)))
    as [c|] eqn:L; [|discriminate].
  destruct (storage_match_of_lookup _ _ _ _ _ L E) as [page P].
  exists page.
  assert (O : offline_document w' = Some page)
    by (unfold offline_document; now rewrite C, Loc).
  split; [exact O|]. split.
  - destruct (handleNavigation_network_down req w' N) as [w2 [_ R]].
    unfold eval. rewrite R, Miss, O. reflexivity.
  - intros None0. unfold offline_document in None0.
    unfold exec in P. rewrite onInstall_run in P. cbn [snd caches] in P.
    rewrite (storage_match_update_hit _ _ _ _
               (match storage_lookup STATIC_CACHE (caches w) with
                | Some c => c
                | None => []
                end) res) in P.
    + congruence.
    + now rewrite same_matches_opened.
    + apply storage_opened_lookup.
    + rewrite <- K.
      now apply precache_puts_stored; [apply PRECACHE_keys_distinct| |].
Qed.

Lemma install_provides_offline_fallback_witness :
  eval (handleNavigation Sample.chapter)
    (exec onInstall (Sample.world true Sample.net_slow [])) =
  Fulfilled (Sample.page "https://example.org/notes/pwa/offline.html").
Proof.
  assert (PL : parsed_location (Sample.world true Sample.net_slow []))
    by (split; vm_compute; reflexivity).
  assert (A : reply (network (Sample.world true Sample.net_slow [])
                       (new_Request
                          (resolve_URL
                             (location (Sample.world true Sample.net_slow []))
                             OFFLINE_URL))) =
              Some (Sample.page "https://example.org/notes/pwa/offline.html"))
    by (vm_compute; reflexivity).
  assert (Hok : ok (Sample.page "https://example.org/notes/pwa/offline.html") = true)
    by (vm_compute; reflexivity).
  assert (Hst : storable (Sample.page "https://example.org/notes/pwa/offline.html") = true)
    by (vm_compute; reflexivity).
  assert (M : cached_copy Sample.chapter
                (exec onInstall (Sample.world true Sample.net_slow [])) = None)
    by (vm_compute; reflexivity).
  assert (T : network_fails
                (exec onInstall (Sample.world true Sample.net_slow []))
                Sample.chapter \/
              network_times_out
                (exec onInstall (Sample.world true Sample.net_slow []))
                Sample.chapter)
    by (right; vm_compute; lia).
  assert (L : location (exec onInstall (Sample.world true Sample.net_slow [])) =
              location (Sample.world true Sample.net_slow []))
    by (vm_compute; reflexivity).
  assert (O : offline_document (Sample.world true Sample.net_slow []) = None)
    by (vm_compute; reflexivity).
  pose proof (install_provides_offline_fallback
                (Sample.world true Sample.net_slow [])
                (exec onInstall (Sample.world true Sample.net_slow []))
                Sample.chapter
                (Sample.page "https://example.org/notes/pwa/offline.html")
                PL A Hok Hst eq_refl L T M) as [page [_ [H R]]].
  rewrite H. f_equal. exact (R O).
Defined.

(** ** Warm-up messages *)

Lemma fetch_ok_run (u : URL) (w : World) :
  fetch_ok u w =
  (match url_answer w u with
   | Some res => Fulfilled res
   | None =>
       match reply (network w (new_Request u)) with
       | Some _ => Rejected "TypeError: Request failed"
       | None => Rejected "TypeError: Failed to fetch"
       end
   end, log_fetch (new_Request u) w).
Proof.
  unfold fetch_ok, bind, fetch, url_answer, throw, ret.
  destruct (reply (network w (new_Request u))) as [res|]; [|reflexivity].
  now destruct (ok res); destruct (storable res).
Qed.

(** The fetches of [addAll]: all are made; the responses come back
    when every one is ok, and a rejection otherwise. *)
Lemma fetch_all_run (l : list URL) (w : World) :
  snd (Promise_all (map fetch_ok l) w) =
    mkWorld (location w) (onLine w) (network w) (caches w)
      (fetched w ++ map new_Request l) /\
  ((forall u, In u l -> url_answer w u <> None) ->
   exists rs, fst (Promise_all (map fetch_ok l) w) = Fulfilled rs /\
              Forall2 (fun u r => url_answer w u = Some r) l rs) /\
  ((exists u, In u l /\ url_answer w u = None) ->
   exists err, fst (Promise_all (map fetch_ok l) w) = Rejected err).
Proof.
  revert w. induction l as [|u l IH]; intros w.
  - simpl. rewrite app_nil_r. split; [now destruct w|]. split.
    + intros _. exists []. split; [reflexivity | constructor].
    + intros [u [[] _]].
  - simpl map. cbn [Promise_all]. rewrite fetch_ok_run.
    destruct (IH (log_fetch (new_Request u) w)) as [W [Hok Hfail]].
    destruct (Promise_all (map fetch_ok l) (log_fetch (new_Request u) w))
      as [rs w2] eqn:E.
    simpl in W. subst w2. split; [|split].
    + simpl. now rewrite <- app_assoc.
    + intros Hall.
      destruct (url_answer w u) as [r|] eqn:A;
        [|exfalso; apply (Hall u); [now left | exact A]].
      destruct Hok as [rs' [Hrs F2]]; [intros v Hv; apply Hall; now right|].
      simpl in Hrs. subst rs. exists (r :: rs'). split; [reflexivity|].
      constructor; [exact A | exact F2].
    + intros [v [[-> | Hv] Av]].
      * rewrite Av. simpl.
        destruct (reply (network w (new_Request v))); eexists; reflexivity.
      * destruct Hfail as [err Herr]; [now exists v|].
        simpl in Herr. subst rs.
        destruct (url_answer w u);
          [|destruct (reply (network w (new_Request u)))]; eexists; reflexivity.
Qed.

Lemma put_all_run (cache : string) (entries : list (string * Response)) (w : World) :
  put_all cache entries w =
  (Fulfilled tt,
   set_caches (storage_update cache (entry_put_all entries) (caches w)) w).
Proof.
  revert w. induction entries as [|[k r] es IH]; intros w.
  - simpl. now rewrite storage_update_same, set_caches_same.
  - cbn [put_all]. unfold bind, cache_store. rewrite IH.
    cbn [caches set_caches]. now rewrite storage_update_twice.
Qed.

Lemma entry_put_all_other (k : string) (ks : list string) (rs : list Response)
    (c : Cache) :
  ~ In k ks ->
  entry_match k (entry_put_all (combine ks rs) c) = entry_match k c.
Proof.
  revert rs c. induction ks as [|k' ks IH]; intros rs c H; [reflexivity|].
  destruct rs as [|r rs]; [reflexivity|].
  simpl in H. change (entry_put_all (combine (k' :: ks) (r :: rs)) c)
    with (entry_put_all (combine ks rs) (entry_put k' r c)).
  rewrite IH by tauto. apply entry_match_put_other. intros ->. tauto.
Qed.

Lemma entry_put_all_stored (A : URL -> option Response) (l : list URL)
    (rs : list Response) (c : Cache) (u : URL) (r : Response) :
  Forall2 (fun v s => A v = Some s) l rs ->
  NoDup (map url_key l) -> In u l -> A u = Some r ->
  entry_match (url_key u) (entry_put_all (combine (map url_key l) rs) c) = Some r.
Proof.
  intros F. revert c. induction F as [|v s l rs Hv F IH]; intros c ND Hin Au;
    [contradiction|].
  simpl in ND. apply NoDup_cons_iff in ND. destruct ND as [Hn ND].
  change (entry_put_all (combine (map url_key (v :: l)) (s :: rs)) c)
    with (entry_put_all (combine (map url_key l) rs) (entry_put (url_key v) s c)).
  destruct (in_dec String.string_dec (url_key u) (map url_key l)) as [Hu | Hu].
  - destruct Hin as [-> | Hin]; [contradiction|]. now apply IH.
  - rewrite entry_put_all_other by exact Hu.
    destruct Hin as [-> | Hin].
    + assert (s = r) by congruence. subst s. apply entry_match_put_same.
    + exfalso. apply Hu. now apply in_map.
Qed.

Lemma distinct_NoDup (l : list string) : distinct l = true -> NoDup l.
Proof.
  induction l as [|k l IH]; simpl; [constructor|].
  rewrite andb_true_iff, negb_true_iff. intros [H1 H2].
  constructor; [|now apply IH].
  intros Hin. assert (E : existsb (String.eqb k) l = true)
    by (apply existsb_exists; exists k; split; [exact Hin | apply String.eqb_refl]).
  congruence.
Qed.

Lemma NoDup_distinct (l : list string) : NoDup l -> distinct l = true.
Proof.
  induction 1 as [|k l Hk ND IH]; simpl; [reflexivity|].
  rewrite IH, andb_true_r. apply negb_true_iff.
  destruct (existsb (String.eqb k) l) eqn:E; [|reflexivity].
  apply existsb_exists in E. destruct E as [x [Hx Ex]].
  apply String.eqb_eq in Ex. now subst x.
Qed.

(** How the warm-up runs on a message of the right type. *)
Lemma onMessage_run (data : MessageData) (w : World) :
  type data = "CACHE_URLS" ->
  fetched (exec (onMessage data) w) = fetched w ++ map new_Request (urls data) /\
  ((exists u, In u (urls data) /\ url_answer w u = None) ->
   (exists err, eval (onMessage data) w = Rejected err) /\
   caches (exec (onMessage data) w) = storage_opened RUNTIME_CACHE (caches w)) /\
  ((forall u, In u (urls data) -> url_answer w u <> None) ->
   NoDup (map url_key (urls data)) ->
   exists rs,
     Forall2 (fun u r => url_answer w u = Some r) (urls data) rs /\
     eval (onMessage data) w = Fulfilled tt /\
     caches (exec (onMessage data) w) =
       storage_update RUNTIME_CACHE
         (entry_put_all (combine (map url_key (urls data)) rs))
         (storage_opened RUNTIME_CACHE (caches w))).
Proof.
  intros Ty. unfold eval, exec, onMessage. rewrite Ty, String.eqb_refl.
  rewrite (bind_fulfilled _ _ _ _ _ (caches_open_run RUNTIME_CACHE w)).
  unfold cache_addAll, bind.
  destruct (fetch_all_run (urls data)
              (set_caches (storage_opened RUNTIME_CACHE (caches w)) w))
    as [W [Hok Hfail]].
  destruct (Promise_all (map fetch_ok (urls data))
              (set_caches (storage_opened RUNTIME_CACHE (caches w)) w))
    as [rs w2] eqn:E.
  simpl in W. subst w2. split; [|split].
  - destruct rs as [rs|err]; [|reflexivity].
    destruct (distinct (map url_key (urls data))); [|reflexivity].
    now rewrite put_all_run.
  - intros Hex. destruct (Hfail Hex) as [err Herr]. simpl in Herr. subst rs.
    split; [now exists err | reflexivity].
  - intros Hall ND. destruct (Hok Hall) as [rs' [Hrs F2]].
    simpl in Hrs. subst rs. exists rs'. split; [exact F2|].
    rewrite (NoDup_distinct _ ND), put_all_run. split; reflexivity.
Qed.

(** X16: a message whose type is not "CACHE_URLS" changes nothing.  A
    "CACHE_URLS" message is all or nothing: every URL is fetched, and
    if one of them fails or gets a response that is not ok (or one that
    the Cache API does not take: a 206, a "Vary: *"), the warm-up
    rejects and no cache answers any key differently than before. *)
Theorem warm_up_is_all_or_nothing :
  forall (w : World) (data : MessageData),
    (type data <> "CACHE_URLS" -> onMessage data w = (Fulfilled tt, w)) /\
    (type data = "CACHE_URLS" ->
     fetched (exec (onMessage data) w) =
       fetched w ++ map new_Request (urls data) /\
     ((exists u, In u (urls data) /\ url_answer w u = None) ->
      (exists err, eval (onMessage data) w = Rejected err) /\
      same_matches (caches w) (caches (exec (onMessage data) w)))).
Proof.
  intros w data. split.
  - intros H. unfold onMessage. apply String.eqb_neq in H. now rewrite H.
  - intros Ty. destruct (onMessage_run data w Ty) as [F [Fail _]].
    split; [exact F|]. intros Hex. destruct (Fail Hex) as [R C].
    split; [exact R|]. rewrite C. apply same_matches_opened.
Qed.

Lemma warm_up_is_all_or_nothing_witness :
  exists err,
    eval (onMessage
            (mkMessageData "CACHE_URLS"
               [mkURL Sample.site "/a.html" "" ""; mkURL Sample.site "/b.html" "" ""]))
      (Sample.world true
         (fun req => if includes (req_url req) "/b."
                     then mkNetOutcome 20 None
                     else mkNetOutcome 20 (Some (Sample.page "ok")))
         []) = Rejected err.
Proof.
  destruct (warm_up_is_all_or_nothing
              (Sample.world true
                 (fun req => if includes (req_url req) "/b."
                             then mkNetOutcome 20 None
                             else mkNetOutcome 20 (Some (Sample.page "ok")))
                 [])
              (mkMessageData "CACHE_URLS"
                 [mkURL Sample.site "/a.html" "" ""; mkURL Sample.site "/b.html" "" ""]))
    as [_ H].
  destruct (H eq_refl) as [_ H2].
  destruct H2 as [R _]; [|exact R].
  exists (mkURL Sample.site "/b.html" "" ""). split; [simpl; tauto | reflexivity].
Defined.

(** X17: a "CACHE_URLS" message whose URLs are distinct, fragments
    apart, and all answered with ok responses that the Cache API takes
    (no 206, no "Vary: *") is fulfilled; afterwards the runtime cache
    answers each of the URLs, under its key without fragment, with its
    response and every other key as before: the warm-up evicts nothing
    and runs no trim, whatever the number of URLs. *)
Theorem warm_up_stores_every_url :
  forall (w : World) (data : MessageData),
    type data = "CACHE_URLS" ->
    (forall u, In u (urls data) ->
       exists res, reply (network w (new_Request u)) = Some res /\
                   ok res = true /\ storable res = true) ->
    NoDup (map url_key (urls data)) ->
    eval (onMessage data) w = Fulfilled tt /\
    (forall u res,
       In u (urls data) -> reply (network w (new_Request u)) = Some res ->
       cache_entry RUNTIME_CACHE (url_key u) (exec (onMessage data) w) = Some res) /\
    (forall key,
       ~ In key (map url_key (urls data)) ->
       cache_entry RUNTIME_CACHE key (exec (onMessage data) w) =
       cache_entry RUNTIME_CACHE key w).
Proof.
  intros w data Ty Hall ND.
  assert (Hall' : forall u, In u (urls data) -> url_answer w u <> None).
  { intros u Hu. destruct (Hall u Hu) as [res [R [Hok Hst]]].
    unfold url_answer. now rewrite R, Hok, Hst. }
  destruct (onMessage_run data w Ty) as [_ [_ Ok]].
  destruct (Ok Hall' ND) as [rs [F2 [E C]]].
  split; [exact E|]. unfold cache_entry. rewrite C.
  rewrite storage_lookup_update, storage_opened_lookup. cbn [option_map].
  split.
  - intros u res Hin R.
    apply (entry_put_all_stored (url_answer w)); trivial.
    destruct (Hall u Hin) as [res' [R' [Hok Hst]]].
    unfold url_answer. rewrite R. rewrite R in R'. injection R' as <-.
    now rewrite Hok, Hst.
  - intros key Hk. rewrite entry_put_all_other by exact Hk.
    now destruct (storage_lookup RUNTIME_CACHE (caches w)).
Qed.

Lemma warm_up_stores_every_url_witness :
  cache_entry RUNTIME_CACHE "https://example.org/b.html"
    (exec (onMessage
             (mkMessageData "CACHE_URLS"
                [mkURL Sample.site "/a.html" "" "";
                 mkURL Sample.site "/b.html" "" "#notes"]))
       (Sample.world true Sample.net_up [])) =
  Some (Sample.page "https://example.org/b.html#notes").
Proof.
  destruct (warm_up_stores_every_url
              (Sample.world true Sample.net_up [])
              (mkMessageData "CACHE_URLS"
                 [mkURL Sample.site "/a.html" "" "";
                  mkURL Sample.site "/b.html" "" "#notes"])
              eq_refl) as [_ [H _]].
  - intros u Hin. eexists. split; [reflexivity|]. split; reflexivity.
  - vm_compute. repeat constructor; simpl; intuition discriminate.
  - apply (H (mkURL Sample.site "/b.html" "" "#notes"));
      [simpl; tauto | reflexivity].
Defined.

(** ** A static asset, from the first request to the second *)

Lemma cacheFirst_ok_run (req : Request) (w : World) (res : Response) :
  request_match req (caches w) = None ->
  network_answers_ok w req res ->
  cacheable req res = true ->
  exists cs,
    cacheFirst req w = (Fulfilled res, set_caches cs (log_fetch req w)) /\
    request_match req cs = Some res.
Proof.
  intros M [N K] C.
  destruct (open_put_trim STATIC_CACHE req (clone res)
              MAX_STATIC_ITEMS (log_fetch req w) C) as [cs [E [_ [Hit _]]]];
    [unfold MAX_STATIC_ITEMS; lia|].
  exists cs. split.
  - unfold cacheFirst.
    rewrite (bind_fulfilled _ _ w w None)
      by (unfold caches_match_request; now rewrite M).
    unfold try_catch.
    rewrite (bind_fulfilled _ _ _ _ _ (fetch_answers _ _ _ N)). rewrite K.
    now rewrite (bind_fulfilled _ _ _ _ _ E).
  - rewrite (request_match_get _ _ _ C). apply Hit.
    now rewrite <- (request_match_get _ _ _ C).
Qed.

(** X18: a request that the listener routes to [cacheFirst], that no
    cache answers and that the network answers with an ok response that
    [cache.put] takes (a GET request, no 206, no "Vary: *"), is answered
    with that response after one fetch; the same request sent again is
    answered with the same response and the listener makes no further
    fetch and changes nothing. *)
Theorem static_asset_is_fetched_once :
  forall (w : World) (req : Request) (res : Response),
    route (origin (location w)) req = CacheFirst ->
    request_match req (caches w) = None ->
    network_answers_ok w req res ->
    cacheable req res = true ->
    fst (onFetch req w) = RespondWith (Fulfilled (Some res)) /\
    fetched (snd (onFetch req w)) = fetched w ++ [req] /\
    onFetch req (snd (onFetch req w)) =
      (RespondWith (Fulfilled (Some res)), snd (onFetch req w)).
Proof.
  intros w req res R M H C.
  destruct (cacheFirst_ok_run req w res M H C) as [cs [E Hit]].
  assert (E1 : onFetch req w =
               (RespondWith (Fulfilled (Some res)), set_caches cs (log_fetch req w))).
  { unfold onFetch. rewrite R. unfold respondWith, response, bind. now rewrite E. }
  rewrite E1. simpl fst. simpl snd. split; [reflexivity|]. split; [reflexivity|].
  unfold onFetch. cbn [location set_caches log_fetch]. rewrite R.
  unfold respondWith, response, bind.
  now rewrite (cacheFirst_hit req (set_caches cs (log_fetch req w)) res Hit).
Qed.

Lemma static_asset_is_fetched_once_witness :
  fst (onFetch (Sample.anchored "/app.css" "#v2" "no-cors" "style")
         (Sample.world true Sample.net_up [])) =
    RespondWith (Fulfilled (Some (Sample.page "https://example.org/app.css#v2"))) /\
  fetched (snd (onFetch (Sample.anchored "/app.css" "#v2" "no-cors" "style")
                  (Sample.world true Sample.net_up []))) =
    [Sample.anchored "/app.css" "#v2" "no-cors" "style"] /\
  fst (onFetch Sample.app_css
         (snd (onFetch Sample.app_css (Sample.world true Sample.net_up [])))) =
    RespondWith (Fulfilled (Some (Sample.page "https://example.org/app.css"))).
Proof.
  destruct (static_asset_is_fetched_once
              (Sample.world true Sample.net_up [])
              (Sample.anchored "/app.css" "#v2" "no-cors" "style")
              (Sample.page "https://example.org/app.css#v2")
              eq_refl eq_refl (conj eq_refl eq_refl) eq_refl) as [H1 [H2 _]].
  destruct (static_asset_is_fetched_once
              (Sample.world true Sample.net_up []) Sample.app_css
              (Sample.page "https://example.org/app.css")
              eq_refl eq_refl (conj eq_refl eq_refl) eq_refl) as [_ [_ H3]].
  split; [exact H1|]. split; [exact H2|]. now rewrite H3.
Defined.

(** ** A response that the cache refuses *)

Section Refused.

Variables (w : World) (req : Request) (res : Response).
Hypothesis answered : network_answers_ok w req res.
Hypothesis refused : cacheable req res = false.

Lemma cacheFirst_refused :
  request_match req (caches w) = None ->
  cacheFirst req w =
  (Fulfilled (mkResponse "Asset not found" 404 "" []),
   set_caches (storage_opened STATIC_CACHE (caches w)) (log_fetch req w)).
Proof.
  intros M. destruct answered as [N K]. unfold cacheFirst.
  rewrite (bind_fulfilled _ _ w w None)
    by (unfold caches_match_request; now rewrite M).
  unfold try_catch.
  rewrite (bind_fulfilled _ _ _ _ _ (fetch_answers _ _ _ N)). rewrite K.
  unfold bind at 1.
  now rewrite (open_put_rejected STATIC_CACHE req (clone res) _ _ refused).
Qed.

Lemma networkFirst_refused :
  networkFirst req w =
  (Fulfilled (match request_match req (caches w) with
              | Some cached => cached
              | None => mkResponse "{}" 200 "" [("Content-Type", "application/json")]
              end),
   set_caches (storage_opened RUNTIME_CACHE (caches w)) (log_fetch req w)).
Proof.
  destruct answered as [N K]. unfold networkFirst, try_catch.
  rewrite (bind_fulfilled _ _ _ _ _ (fetch_answers _ _ _ N)). rewrite K.
  unfold bind at 1.
  rewrite (open_put_rejected RUNTIME_CACHE req (clone res) _ _ refused).
  unfold bind, caches_match_request. cbn [caches set_caches log_fetch].
  rewrite request_match_opened.
  now destruct (request_match req (caches w)).
Qed.

Lemma staleWhileRevalidate_refused :
  staleWhileRevalidate req w =
  (Fulfilled (runtime_entry req w),
   log_fetch req (set_caches (storage_opened RUNTIME_CACHE (caches w)) w)).
Proof.
  destruct answered as [N K]. unfold staleWhileRevalidate.
  rewrite (bind_fulfilled _ _ _ _ _ (caches_open_run RUNTIME_CACHE w)).
  rewrite (bind_fulfilled _ _ _ _ _ (cache_match_opened RUNTIME_CACHE req w)).
  fold (runtime_entry req w).
  unfold bind at 1, try_catch.
  rewrite (bind_fulfilled _ _ _ _ res
             (fetch_answers req
                (set_caches (storage_opened RUNTIME_CACHE (caches w)) w) res N)).
  rewrite K. rewrite (cache_put_rejects _ _ _ refused).
  unfold bind, throw, ret. now destruct (runtime_entry req w).
Qed.

Lemma handleNavigation_refused :
  and_then (negb (onLine w)) (cached_copy req w) = None ->
  latency (network w req) <= 3000 ->
  handleNavigation req w =
  (Fulfilled
     (match cached_copy req w with
      | Some page => page
      | None =>
          match offline_document w with
          | Some page => page
          | None =>
              mkResponse "Offline - Page not cached" 503 "Service Unavailable"
                [("Content-Type", "text/plain")]
          end
      end),
   set_caches (storage_opened RUNTIME_CACHE (caches w)) (log_fetch req w)).
Proof.
  intros A T. destruct answered as [N K].
  unfold handleNavigation. rewrite <- bind_assoc.
  rewrite (bind_fulfilled _ _ w w _ (handleNavigation_lookup req w)).
  unfold bind at 1, navigator_onLine. rewrite A.
  unfold try_catch.
  assert (F : fetch_race_timeout req 3000 w = (Fulfilled res, log_fetch req w)).
  { unfold fetch_race_timeout. apply Nat.leb_le in T. rewrite T.
    now apply fetch_answers. }
  rewrite (bind_fulfilled _ _ _ _ _ F). rewrite K.
  unfold bind at 1.
  rewrite (open_put_rejected RUNTIME_CACHE req (clone res) _ _ refused).
  destruct (cached_copy req w) as [page|]; [reflexivity|].
  unfold bind, caches_match_url, caches_match, offline_document.
  cbn [caches location set_caches log_fetch].
  rewrite same_matches_opened.
  now destruct (storage_match
                  (without_fragment (resolve (location w) OFFLINE_URL))
                  (caches w)).
Qed.

End Refused.

(** X19: an ok response that [cache.put] refuses (the request is not a
    GET, or the response is a 206 or has "Vary: *") never reaches the
    page through the executors that put inside their [try]: the
    rejection of the put lands in their catch.  [cacheFirst] answers a
    miss with the synthetic 404, [networkFirst] with the cached copy or
    "{}", [staleWhileRevalidate] with the stale entry or nothing, and a
    navigation that goes to the network and is answered in time with
    the cached copy, the offline document or the 503.  Nothing is
    stored: every key is answered from the caches after the fetch event
    as it was before. *)
Theorem refused_put_lands_in_the_catch :
  forall (w : World) (req : Request) (res : Response),
    network_answers_ok w req res ->
    cacheable req res = false ->
    (request_match req (caches w) = None ->
     eval (cacheFirst req) w = Fulfilled (mkResponse "Asset not found" 404 "" [])) /\
    eval (networkFirst req) w =
      Fulfilled (match request_match req (caches w) with
                 | Some cached => cached
                 | None =>
                     mkResponse "{}" 200 "" [("Content-Type", "application/json")]
                 end) /\
    eval (staleWhileRevalidate req) w = Fulfilled (runtime_entry req w) /\
    (onLine w = true \/ cached_copy req w = None ->
     latency (network w req) <= 3000 ->
     eval (handleNavigation req) w =
       Fulfilled
         (match cached_copy req w with
          | Some page => page
          | None =>
              match offline_document w with
              | Some page => page
              | None =>
                  mkResponse "Offline - Page not cached" 503 "Service Unavailable"
                    [("Content-Type", "text/plain")]
              end
          end)) /\
    same_matches (caches w) (caches (snd (onFetch req w))).
Proof.
  intros w req res H C.
  split; [|split; [|split; [|split]]].
  - intros M. unfold eval. now rewrite (cacheFirst_refused w req res H C M).
  - unfold eval. now rewrite (networkFirst_refused w req res H C).
  - unfold eval. now rewrite (staleWhileRevalidate_refused w req res H C).
  - intros A T. unfold eval.
    rewrite (handleNavigation_refused w req res H C); [reflexivity| |exact T].
    destruct A as [-> | ->]; [reflexivity | now destruct (onLine w)].
  - intros key. unfold onFetch.
    destruct (route (origin (location w)) req); unfold respondWith, response.
    + reflexivity.
    + unfold bind, fetch. now destruct (reply (network w req)).
    + rewrite (staleWhileRevalidate_refused w req res H C).
      cbn [snd caches log_fetch set_caches]. apply same_matches_opened.
    + destruct (and_then (negb (onLine w)) (cached_copy req w)) as [page|] eqn:A.
      * assert (Off : onLine w = false) by (now destruct (onLine w)).
        rewrite Off in A. cbn [negb and_then] in A.
        unfold bind.
        now rewrite (handleNavigation_offline_hit req w page Off A).
      * destruct (Nat.le_gt_cases (latency (network w req)) 3000) as [T | T].
        -- unfold bind. rewrite (handleNavigation_refused w req res H C A T).
           cbn [snd caches log_fetch set_caches]. apply same_matches_opened.
        -- destruct (handleNavigation_network_down req w (or_intror T))
             as [w' [Cw E]].
           unfold bind. rewrite E. unfold ret. cbn [snd]. now rewrite Cw.
    + destruct (request_match req (caches w)) as [hit|] eqn:M.
      * unfold bind. now rewrite (cacheFirst_hit req w hit M).
      * unfold bind. rewrite (cacheFirst_refused w req res H C M).
        cbn [snd caches log_fetch set_caches]. apply same_matches_opened.
    + unfold bind. rewrite (networkFirst_refused w req res H C).
      cbn [snd caches log_fetch set_caches]. apply same_matches_opened.
Qed.

Lemma refused_put_lands_in_the_catch_witness :
  eval (cacheFirst Sample.app_css) (Sample.world true Sample.net_partial []) =
    Fulfilled (mkResponse "Asset not found" 404 "" []) /\
  eval (networkFirst Sample.search_json)
    (Sample.world true Sample.net_partial
       [(RUNTIME_CACHE,
         [("https://example.org/data/search.json", Sample.page "old")])]) =
    Fulfilled (Sample.page "old") /\
  eval (staleWhileRevalidate
          (mkRequest (mkURL Sample.site "/api/notes" "" "") "POST" "cors" "" []))
    (Sample.world true Sample.net_up []) = Fulfilled None.
Proof.
  destruct (refused_put_lands_in_the_catch
              (Sample.world true Sample.net_partial []) Sample.app_css
              (mkResponse "part" 206 "Partial Content" [])
              (conj eq_refl eq_refl) eq_refl) as [H1 _].
  destruct (refused_put_lands_in_the_catch
              (Sample.world true Sample.net_partial
                 [(RUNTIME_CACHE,
                   [("https://example.org/data/search.json", Sample.page "old")])])
              Sample.search_json
              (mkResponse "part" 206 "Partial Content" [])
              (conj eq_refl eq_refl) eq_refl) as [_ [H2 _]].
  destruct (refused_put_lands_in_the_catch
              (Sample.world true Sample.net_up [])
              (mkRequest (mkURL Sample.site "/api/notes" "" "") "POST" "cors" "" [])
              (Sample.page "https://example.org/api/notes")
              (conj eq_refl eq_refl) eq_refl) as [_ [_ [H3 _]]].
  split; [exact (H1 eq_refl)|]. split; [exact H2 | exact H3].
Defined.

Lemma not_intercepted_iff_cross_origin_witness :
  fst (onFetch Sample.foreign (Sample.world true Sample.net_up [])) = NotIntercepted.
Proof.
  apply (proj2 (not_intercepted_iff_cross_origin
                  (Sample.world true Sample.net_up []) Sample.foreign)).
  simpl. discriminate.
Defined.
